(** * Travecto: the browser client [static/script.js]

    A shallow embedding of the client script of the route planner and the
    properties of its text parsers, its persistence bridge, its planning
    call and its view controller.

    Conventions of the embedding.
    - A JavaScript string is the list of its UTF-16 code units ([jsstring]).
    - A plain object used as a dictionary is a [gmap] over string keys,
      together with the properties it inherits from [Object.prototype].
    - The page (DOM, storage, location, the global [lastPlan]) is one record
      threaded through a state-and-exception monad; an exception keeps the
      mutations made before it was raised.
    - The script exists in two deployed variants that differ in
      [updateView] (and in the presence of [restoreForm] and [share]); the
      embedding takes the variant as a parameter.

    What stands outside the script is kept abstract.  The markup is not
    part of the sources: a form control is a cell holding a string, the
    day selector a list of options indexed from 0, the list region the
    markup text appended to it.  A URL carries its query as the list of
    pairs that [URLSearchParams] parses it into and serialises it from.
    The planning endpoint is a function from the payload to the outcome of
    the call, and one [plan] call runs without other listeners in
    between.  The numbers of a plan response are integral. *)

From Stdlib Require Import ZArith NArith List String Ascii Bool Lia ZifyBool.
From Stdlib Require Import SpecFloat DecimalString.
From Stdlib Require DecimalFacts DecimalPos DecimalN.
From stdpp Require Import base option list functions gmap.

Import ListNotations.
Local Open Scope N_scope.

(** ** Strings *)

Module JsString.

Abbreviation jsstring := (list N).

(** An ASCII literal as code units. *)
Fixpoint lit (s : string) : jsstring :=
  match s with
  | EmptyString => []
  | String c s' => N_of_ascii c :: lit s'
  end.

Definition PIPE : N := 124.
Definition COMMA : N := 44.
Definition LF : N := 10.
Definition CR : N := 13.

(** [WhiteSpace] and [LineTerminator] code points of ECMAScript, the
    characters [String.prototype.trim] strips. *)
Definition is_ws (c : N) : bool :=
  ((9 <=? c) && (c <=? 13)) || (c =? 32) || (c =? 160) || (c =? 5760)
  || ((8192 <=? c) && (c <=? 8202)) || (c =? 8232) || (c =? 8233)
  || (c =? 8239) || (c =? 8287) || (c =? 12288) || (c =? 65279).

Fixpoint trimStart (s : jsstring) : jsstring :=
  match s with
  | [] => []
  | c :: s' => if is_ws c then trimStart s' else s
  end.

Definition trimEnd (s : jsstring) : jsstring := rev (trimStart (rev s)).

Definition trim (s : jsstring) : jsstring := trimEnd (trimStart s).

(** Push a code unit on the first segment of a split in progress. *)
Definition cons_head (c : N) (segs : list jsstring) : list jsstring :=
  match segs with
  | [] => [[c]]
  | h :: t => (c :: h) :: t
  end.

(** [s.split(sep)] for a one-character separator: every occurrence cuts,
    and the result always has at least one segment. *)
Fixpoint split (sep : N) (s : jsstring) : list jsstring :=
  match s with
  | [] => [[]]
  | c :: s' => if c =? sep then [] :: split sep s'
               else cons_head c (split sep s')
  end.

(** [s.split(/\r?\n/)]: at each position the pattern consumes a line feed,
    or a carriage return followed at once by a line feed. *)
Fixpoint split_lines (s : jsstring) : list jsstring :=
  match s with
  | [] => [[]]
  | c :: s' =>
      if c =? LF then [] :: split_lines s'
      else if c =? CR then
        match s' with
        | d :: s'' => if d =? LF then [] :: split_lines s''
                      else cons_head c (split_lines s')
        | [] => cons_head c (split_lines s')
        end
      else cons_head c (split_lines s')
  end.

(** [segs.join(sep)] *)
Fixpoint join (sep : jsstring) (segs : list jsstring) : jsstring :=
  match segs with
  | [] => []
  | [x] => x
  | x :: rest => x ++ sep ++ join sep rest
  end.

(** Truthiness of a string: [Boolean(s)], [if (s)], [!s]. *)
Definition truthy (s : jsstring) : bool :=
  match s with [] => false | _ => true end.

(** [value.split(/\r?\n/).map(line => line.trim()).filter(Boolean)] *)
Definition surviving_lines (value : jsstring) : list jsstring :=
  List.filter truthy (List.map trim (split_lines value)).

End JsString.
Import JsString.

(** ** Numbers

    JSON numbers are IEEE 754 doubles.  The plan response carries integral
    numbers (a day, meters, minutes), so the embedding takes each as the
    integer literal of the JSON text and converts it as [JSON.parse] does. *)

Module Number.
Local Open Scope Z_scope.

Definition prec : Z := 53.
Definition emax : Z := 1024.

(** The Number a JSON integer literal denotes: the nearest double. *)
Definition of_Z (z : Z) : spec_float := binary_normalize prec emax z 0 false.

(** [x / y] *)
Definition div (x y : spec_float) : spec_float := SFdiv prec emax x y.

(** [ToBoolean] of a Number. *)
Definition truthy (x : spec_float) : bool :=
  match x with
  | S754_zero _ | S754_nan => false
  | _ => true
  end.

(** Same double (bit for bit, NaN payloads apart). *)
Definition same (x y : spec_float) : bool :=
  match x, y with
  | S754_zero s, S754_zero t => Bool.eqb s t
  | S754_infinity s, S754_infinity t => Bool.eqb s t
  | S754_nan, S754_nan => true
  | S754_finite s m e, S754_finite t n f =>
      Bool.eqb s t && Pos.eqb m n && Z.eqb e f
  | _, _ => false
  end.

(** Decimal digits of a natural number. *)
Definition digits (n : Z) : jsstring :=
  lit (NilZero.string_of_uint (N.to_uint (Z.to_N n))).

(** The value of a finite double with no fractional part. *)
Definition integral (m : positive) (e : Z) : Z := Z.shiftl (Z.pos m) e.

(** Candidates with [k] significant digits around [X], which has [n]
    digits: the multiples of [10^(n-k)] just below and just above. *)
Definition candidates (X : Z) (n k : nat) : list Z :=
  let u := 10 ^ (Z.of_nat n - Z.of_nat k) in
  let lo := X / u in
  [lo * u; (lo + 1) * u].

(** Of the candidates that read back as [x], the one closest to [X]
    (an even digit string on a tie). *)
Definition pick (x : spec_float) (X : Z) (n k : nat) : option Z :=
  let u := 10 ^ (Z.of_nat n - Z.of_nat k) in
  match List.filter (fun V => same (of_Z V) x) (candidates X n k) with
  | [] => None
  | [V] => Some V
  | V1 :: V2 :: _ =>
      let d1 := X - V1 in
      let d2 := V2 - X in
      if d1 <? d2 then Some V1
      else if d2 <? d1 then Some V2
      else if Z.even (V1 / u) then Some V1 else Some V2
  end.

Fixpoint shortest_from (x : spec_float) (X : Z) (n : nat) (ks : list nat)
  : Z :=
  match ks with
  | [] => X
  | k :: ks' =>
      match pick x X n k with
      | Some V => V
      | None => shortest_from x X n ks'
      end
  end.

(** The integer with the fewest significant digits that reads back as the
    double [x], whose exact value is [X > 0]. *)
Definition shortest (x : spec_float) (X : Z) : Z :=
  let n := length (digits X) in
  shortest_from x X n (seq 1 n).

Fixpoint strip_zeros (rev_ds : jsstring) : jsstring :=
  match rev_ds with
  | c :: r => if N.eqb c 48 then strip_zeros r else rev_ds
  | [] => []
  end.

(** [Number::toString] of a positive integer [V] standing for itself:
    plain digits up to 21 of them, exponent notation beyond. *)
Definition format (V : Z) : jsstring :=
  let ds := digits V in
  let n := length ds in
  if (n <=? 21)%nat then ds
  else
    let s := rev (strip_zeros (rev ds)) in
    let e := lit "e+" ++ digits (Z.of_nat n - 1) in
    match s with
    | [] => ds
    | [d] => d :: e
    | d :: r => d :: lit "." ++ r ++ e
    end.

(** [Number::toString(x)] for a double without fractional part. *)
Definition toString (x : spec_float) : jsstring :=
  match x with
  | S754_nan => lit "NaN"
  | S754_zero _ => lit "0"
  | S754_infinity s => (if s then lit "-" else []) ++ lit "Infinity"
  | S754_finite s m e =>
      (if s then lit "-" else []) ++
      format (shortest (S754_finite false m e) (integral m e))
  end.

(** [x.toFixed(1)] *)
Definition toFixed1 (x : spec_float) : jsstring :=
  match x with
  | S754_finite s m e =>
      let sign := if s then lit "-" else [] in
      if (10 ^ 21 <=? integral m e) && (0 <=? e)
      then sign ++ toString (S754_finite false m e)
      else
        (* the integer n closest to 10 x, the larger one on a tie *)
        let n := if 0 <=? e then 10 * integral m e
                 else (20 * Z.pos m + 2 ^ (- e)) / 2 ^ (- e + 1) in
        let ds := digits n in
        let ds := if (length ds <=? 1)%nat then lit "0" ++ ds else ds in
        sign ++ removelast ds ++ lit "." ++ [List.last ds 48%N]
  | S754_zero _ => lit "0.0"
  | _ => toString x
  end.

End Number.

(** ** Plain objects as dictionaries *)

Module JsObject.

(** Property names every plain object inherits from [Object.prototype]
    (ECMAScript, with the Annex B names browsers implement). *)
Definition prototype_names : list jsstring :=
  List.map lit
    ["constructor"; "hasOwnProperty"; "isPrototypeOf";
     "propertyIsEnumerable"; "toLocaleString"; "toString"; "valueOf";
     "__proto__"; "__defineGetter__"; "__defineSetter__";
     "__lookupGetter__"; "__lookupSetter__"]%string.

Definition inherited (k : jsstring) : bool :=
  bool_decide (k ∈ prototype_names).

Definition PROTO : jsstring := lit "__proto__".

(** [obj[k] = v] with a string [v]: an own data property is created or
    overwritten, except for [__proto__], whose inherited setter ignores a
    value that is neither an object nor null. *)
Definition assign (obj : gmap jsstring jsstring) (k v : jsstring)
  : gmap jsstring jsstring :=
  if bool_decide (k = PROTO) then obj else <[k := v]> obj.

End JsObject.
Import JsObject.

(** ** Exceptions *)

Inductive JsError : Type :=
| TypeError (message : jsstring)
| SyntaxError (message : jsstring)
| Error (message : jsstring).

Definition message (e : JsError) : jsstring :=
  match e with
  | TypeError m | SyntaxError m | Error m => m
  end.

(** ** TextBlockParser: the parsers inside [plan] *)

Module Parser.

(** [const [day, places] = mandatoryLine.split('|')]: the first two
    segments of the full split; [places] is [undefined] when the line has
    no separator. *)
Definition day_places (mandatoryLine : jsstring)
  : jsstring * option jsstring :=
  match split PIPE mandatoryLine with
  | [] => ([], None)
  | day :: rest => (day, head rest)
  end.

(** [!places] for a string or [undefined]. *)
Definition places_truthy (places : option jsstring) : bool :=
  match places with Some p => truthy p | None => false end.

(** [(mandatory[day] ??= []).push(place)].  An own list is extended; a
    missing key gets a fresh list; a key that resolves through the
    prototype chain yields a function or [Object.prototype] itself, which
    has no [push]. *)
Definition push_place (mandatory : gmap jsstring (list jsstring))
    (day place : jsstring) : JsError + gmap jsstring (list jsstring) :=
  match mandatory !! day with
  | Some l => inr (<[day := l ++ [place]]> mandatory)
  | None =>
      if inherited day
      then inl (TypeError (lit "(intermediate value).push is not a function"))
      else inr (<[day := [place]]> mandatory)
  end.

(** The inner [forEach] over [places.split(',')]. *)
Fixpoint push_places (mandatory : gmap jsstring (list jsstring))
    (day : jsstring) (tokens : list jsstring)
  : JsError + gmap jsstring (list jsstring) :=
  match tokens with
  | [] => inr mandatory
  | place :: rest =>
      let place := trim place in
      if truthy place then
        match push_place mandatory day place with
        | inl e => inl e
        | inr mandatory' => push_places mandatory' day rest
        end
      else push_places mandatory day rest
  end.

(** The body of [mandatoryLines.forEach]. *)
Definition mandatory_line (mandatory : gmap jsstring (list jsstring))
    (mandatoryLine : jsstring) : JsError + gmap jsstring (list jsstring) :=
  let '(day, places) := day_places mandatoryLine in
  if negb (truthy day) || negb (places_truthy places) then inr mandatory
  else push_places mandatory day (split COMMA (default [] places)).

Fixpoint mandatory_lines (mandatory : gmap jsstring (list jsstring))
    (lines : list jsstring) : JsError + gmap jsstring (list jsstring) :=
  match lines with
  | [] => inr mandatory
  | l :: rest =>
      match mandatory_line mandatory l with
      | inl e => inl e
      | inr mandatory' => mandatory_lines mandatory' rest
      end
  end.

(** [mandatory] as [plan] builds it from the raw field text. *)
Definition mandatory_by_day (value : jsstring)
  : JsError + gmap jsstring (list jsstring) :=
  mandatory_lines ∅ (surviving_lines value).

(** [const [original, ...replacement] = altAdressesLine.split('|')] and the
    guarded assignment. *)
Definition alt_line (altAddresses : gmap jsstring jsstring)
    (altAdressesLine : jsstring) : gmap jsstring jsstring :=
  match split PIPE altAdressesLine with
  | [] => altAddresses
  | original :: replacement =>
      if truthy original
      then assign altAddresses (trim original)
                  (trim (join [PIPE] replacement))
      else altAddresses
  end.

Definition alt_lines (altAddresses : gmap jsstring jsstring)
    (lines : list jsstring) : gmap jsstring jsstring :=
  fold_left alt_line lines altAddresses.

(** [altAddresses] as [plan] builds it from the raw field text. *)
Definition alt_addresses (value : jsstring) : gmap jsstring jsstring :=
  alt_lines ∅ (surviving_lines value).

(** The places list: the surviving lines themselves. *)
Definition places_list (value : jsstring) : list jsstring :=
  surviving_lines value.

End Parser.


(** ** The plan request and the plan response *)

Module Request.

Record Config : Type := {
  home : option jsstring;          (* [home || null] *)
  places : list jsstring;
  mandatory_by_day : gmap jsstring (list jsstring);
  alt_addresses : gmap jsstring jsstring;
  mode : jsstring
}.

Record Payload : Type := {
  city_name : jsstring;
  config : Config
}.

End Request.

Module Plan.

Record RouteInfo : Type := {
  day : option Z;                  (* [None]: absent or [null] *)
  places : list jsstring;
  distance_m : Z;
  time_minutes : Z;
  map_path : jsstring
}.

Record PlanResponse : Type := {
  routes : list RouteInfo
}.

End Plan.

(** What [await fetch('/plan', ...)] and the reading of its body yield. *)
Inductive FetchOutcome : Type :=
| NetworkFailure (e : JsError)              (* [fetch] rejects *)
| HttpFailure (text : jsstring)             (* [!resp.ok], body text *)
| HttpSuccess (json : JsError + Plan.PlanResponse). (* [resp.json()] *)

(** ** The page *)

Module Field.

(** The six tracked form controls, by element id. *)
Inductive id : Type := home | places | mandatory | altAddresses | mode | view.

Global Instance id_eq_dec : EqDecision id.
Proof. solve_decision. Defined.

Definition all : list id := [home; places; mandatory; altAddresses; mode; view].

(** The id as the string used for storage keys and query parameters. *)
Definition name (i : id) : jsstring :=
  match i with
  | home => lit "home"
  | places => lit "places"
  | mandatory => lit "mandatory"
  | altAddresses => lit "altAddresses"
  | mode => lit "mode"
  | view => lit "view"
  end.

End Field.

(** [URLSearchParams]: an ordered list of name-value pairs. *)
Module SearchParams.

Abbreviation t := (list (jsstring * jsstring)).

Definition is_high (c : N) : bool := (55296 <=? c) && (c <=? 56319).
Definition is_low (c : N) : bool := (56320 <=? c) && (c <=? 57343).

(** Conversion to a [USVString], applied to the arguments of [set]: an
    unpaired surrogate becomes U+FFFD. *)
Fixpoint toUSV (s : jsstring) : jsstring :=
  match s with
  | [] => []
  | c :: s' =>
      if is_high c then
        match s' with
        | d :: s'' => if is_low d then c :: d :: toUSV s''
                      else 65533 :: toUSV s'
        | [] => [65533]
        end
      else if is_low c then 65533 :: toUSV s'
      else c :: toUSV s'
  end.

(** [params.get(name)]: the value of the first pair of that name. *)
Fixpoint get (params : t) (name : jsstring) : option jsstring :=
  match params with
  | [] => None
  | (n, v) :: rest => if bool_decide (n = name) then Some v else get rest name
  end.

Definition remove (params : t) (name : jsstring) : t :=
  List.filter (fun p => negb (bool_decide (p.1 = name))) params.

(** The list part of [params.set(name, value)]: the first pair of that
    name takes the value and the others go; without one, a pair is
    appended. *)
Fixpoint set_pair (params : t) (name value : jsstring) : t :=
  match params with
  | [] => [(name, value)]
  | (n, v) :: rest =>
      if bool_decide (n = name) then (n, value) :: remove rest name
      else (n, v) :: set_pair rest name value
  end.

Definition set (params : t) (name value : jsstring) : t :=
  set_pair params (toUSV name) (toUSV value).

End SearchParams.

(** A URL, with its query held as the list of pairs that
    [URLSearchParams] serialises to and parses from. *)
Record Url : Type := {
  pathname : jsstring;             (* everything before the query *)
  search : SearchParams.t;
  hash : jsstring
}.

Record Page : Type := {
  lastPlan : option Plan.PlanResponse;
  value : Field.id -> jsstring;    (* [.value] of the six controls *)
  list_innerHTML : jsstring;       (* markup appended to [#list] *)
  list_hidden : bool;
  map_hidden : bool;
  day_hidden : bool;
  day_options : list jsstring;     (* labels; option [i] has value [i] *)
  day_selectedIndex : option nat;
  mapFrame_src : jsstring;
  body_dark : bool;
  localStorage : gmap jsstring jsstring;
  location : Url;
  alerts : list jsstring;          (* messages shown by [alert] *)
  clipboard : option Url           (* URL handed to [writeText] *)
}.

(** Field updates. *)

Definition set_lastPlan (x : option Plan.PlanResponse) (p : Page) : Page :=
  Build_Page x (value p) (list_innerHTML p) (list_hidden p) (map_hidden p)
    (day_hidden p) (day_options p) (day_selectedIndex p) (mapFrame_src p)
    (body_dark p) (localStorage p) (location p) (alerts p) (clipboard p).

Definition set_value (x : Field.id -> jsstring) (p : Page) : Page :=
  Build_Page (lastPlan p) x (list_innerHTML p) (list_hidden p) (map_hidden
    p) (day_hidden p) (day_options p) (day_selectedIndex p) (mapFrame_src p)
    (body_dark p) (localStorage p) (location p) (alerts p) (clipboard p).

Definition set_list_innerHTML (x : jsstring) (p : Page) : Page :=
  Build_Page (lastPlan p) (value p) x (list_hidden p) (map_hidden p)
    (day_hidden p) (day_options p) (day_selectedIndex p) (mapFrame_src p)
    (body_dark p) (localStorage p) (location p) (alerts p) (clipboard p).

Definition set_list_hidden (x : bool) (p : Page) : Page :=
  Build_Page (lastPlan p) (value p) (list_innerHTML p) x (map_hidden p)
    (day_hidden p) (day_options p) (day_selectedIndex p) (mapFrame_src p)
    (body_dark p) (localStorage p) (location p) (alerts p) (clipboard p).

Definition set_map_hidden (x : bool) (p : Page) : Page :=
  Build_Page (lastPlan p) (value p) (list_innerHTML p) (list_hidden p) x
    (day_hidden p) (day_options p) (day_selectedIndex p) (mapFrame_src p)
    (body_dark p) (localStorage p) (location p) (alerts p) (clipboard p).

Definition set_day_hidden (x : bool) (p : Page) : Page :=
  Build_Page (lastPlan p) (value p) (list_innerHTML p) (list_hidden p)
    (map_hidden p) x (day_options p) (day_selectedIndex p) (mapFrame_src p)
    (body_dark p) (localStorage p) (location p) (alerts p) (clipboard p).

Definition set_day_options (x : list jsstring) (p : Page) : Page :=
  Build_Page (lastPlan p) (value p) (list_innerHTML p) (list_hidden p)
    (map_hidden p) (day_hidden p) x (day_selectedIndex p) (mapFrame_src p)
    (body_dark p) (localStorage p) (location p) (alerts p) (clipboard p).

Definition set_day_selectedIndex (x : option nat) (p : Page) : Page :=
  Build_Page (lastPlan p) (value p) (list_innerHTML p) (list_hidden p)
    (map_hidden p) (day_hidden p) (day_options p) x (mapFrame_src p)
    (body_dark p) (localStorage p) (location p) (alerts p) (clipboard p).

Definition set_mapFrame_src (x : jsstring) (p : Page) : Page :=
  Build_Page (lastPlan p) (value p) (list_innerHTML p) (list_hidden p)
    (map_hidden p) (day_hidden p) (day_options p) (day_selectedIndex p) x
    (body_dark p) (localStorage p) (location p) (alerts p) (clipboard p).

Definition set_body_dark (x : bool) (p : Page) : Page :=
  Build_Page (lastPlan p) (value p) (list_innerHTML p) (list_hidden p)
    (map_hidden p) (day_hidden p) (day_options p) (day_selectedIndex p)
    (mapFrame_src p) x (localStorage p) (location p) (alerts p) (clipboard
    p).

Definition set_localStorage (x : gmap jsstring jsstring) (p : Page) : Page :=
  Build_Page (lastPlan p) (value p) (list_innerHTML p) (list_hidden p)
    (map_hidden p) (day_hidden p) (day_options p) (day_selectedIndex p)
    (mapFrame_src p) (body_dark p) x (location p) (alerts p) (clipboard p).

Definition set_location (x : Url) (p : Page) : Page :=
  Build_Page (lastPlan p) (value p) (list_innerHTML p) (list_hidden p)
    (map_hidden p) (day_hidden p) (day_options p) (day_selectedIndex p)
    (mapFrame_src p) (body_dark p) (localStorage p) x (alerts p) (clipboard
    p).

Definition set_alerts (x : list jsstring) (p : Page) : Page :=
  Build_Page (lastPlan p) (value p) (list_innerHTML p) (list_hidden p)
    (map_hidden p) (day_hidden p) (day_options p) (day_selectedIndex p)
    (mapFrame_src p) (body_dark p) (localStorage p) (location p) x
    (clipboard p).

Definition set_clipboard (x : option Url) (p : Page) : Page :=
  Build_Page (lastPlan p) (value p) (list_innerHTML p) (list_hidden p)
    (map_hidden p) (day_hidden p) (day_options p) (day_selectedIndex p)
    (mapFrame_src p) (body_dark p) (localStorage p) (location p) (alerts p)
    x.

(** ** Script execution: state and exceptions *)

Definition Js (A : Type) : Type := Page -> (JsError + A) * Page.

Definition ret {A} (a : A) : Js A := fun p => (inr a, p).

Definition bind {A B} (c : Js A) (k : A -> Js B) : Js B :=
  fun p =>
    match c p with
    | (inr a, p') => k a p'
    | (inl e, p') => (inl e, p')
    end.

Definition throw {A} (e : JsError) : Js A := fun p => (inl e, p).

Definition gets {A} (f : Page -> A) : Js A := fun p => (inr (f p), p).

Definition modify (f : Page -> Page) : Js unit := fun p => (inr tt, f p).

(** [try { body } catch (e) { handler }] *)
Definition try_catch (body : Js unit) (handler : JsError -> Js unit)
  : Js unit :=
  fun p =>
    match body p with
    | (inl e, p') => handler e p'
    | r => r
    end.

Definition lift {A} (r : JsError + A) : Js A :=
  match r with
  | inl e => throw e
  | inr a => ret a
  end.

Notation "'let*' x ':=' c 'in' k" := (bind c (fun x => k))
  (at level 10, x name, c at level 100, k at level 200).
Notation "c1 ';;' c2" := (bind c1 (fun _ => c2))
  (at level 100, c2 at level 200, right associativity).

(** [array.forEach(f)] *)
Fixpoint forEach {A} (f : A -> Js unit) (array : list A) : Js unit :=
  match array with
  | [] => ret tt
  | x :: rest => f x ;; forEach f rest
  end.

(** ** The script *)

Inductive Variant : Type :=
| Gated      (* the day selector depends on the plan having days *)
| Ungated.   (* the day selector only depends on the view *)

Module Script.

Import Plan.

Definition LIST : jsstring := lit "list".
Definition MAP : jsstring := lit "map".
Definition THEME : jsstring := lit "theme".
Definition DARK : jsstring := lit "dark".
Definition LIGHT : jsstring := lit "light".

(** [info.day ? `Day ${info.day}` : 'Route'] *)
Definition label (info : RouteInfo) : jsstring :=
  match day info with
  | Some d =>
      if Number.truthy (Number.of_Z d)
      then lit "Day " ++ Number.toString (Number.of_Z d)
      else lit "Route"
  | None => lit "Route"
  end.

(** [day.appendChild(option)] on the drop-down: the new option takes the
    next index, and a drop-down left without selection shows its first
    option. *)
Definition appendOption (text : jsstring) : Js unit :=
  modify (fun p =>
    set_day_selectedIndex
      (match day_selectedIndex p with None => Some 0%nat | s => s end)
      (set_day_options (day_options p ++ [text]) p)).

Definition populateDays (resp : PlanResponse) : Js unit :=
  modify (fun p => set_day_selectedIndex None (set_day_options [] p)) ;;
  forEach (fun info => appendOption (label info)) (routes resp).

(** Line break and indentation inside the template literal. *)
Definition NL3 : jsstring := [10; 9; 9; 9].
Definition NL2 : jsstring := [10; 9; 9].

Definition li (place : jsstring) : jsstring :=
  lit "<li>" ++ place ++ lit "</li>".

(** [(info.distance_m / 1000).toFixed(1)] *)
Definition km (distance_m : Z) : jsstring :=
  Number.toFixed1 (Number.div (Number.of_Z distance_m) (Number.of_Z 1000)).

(** The template literal of [renderList]. *)
Definition block (info : RouteInfo) : jsstring :=
  NL3 ++ lit "<h2>" ++ label info ++ lit "</h2>" ++
  NL3 ++ lit "<ol>" ++ concat (List.map li (places info)) ++ lit "</ol>" ++
  NL3 ++ lit "<p>" ++ km (distance_m info) ++ lit " km | " ++
         Number.toString (Number.of_Z (time_minutes info)) ++
         lit " min</p>" ++
  NL2.

Definition renderList (resp : PlanResponse) : Js unit :=
  modify (set_list_innerHTML []) ;;
  forEach
    (fun info =>
       modify (fun p => set_list_innerHTML (list_innerHTML p ++ block info) p))
    (routes resp).

(** [day.value]: the value of the selected option, which is its index;
    [None] is the empty string of a drop-down without options. *)
Definition day_value (p : Page) : option nat :=
  match day_selectedIndex p with
  | Some i => if (i <? length (day_options p))%nat then Some i else None
  | None => None
  end.

(** [day.value = i]: select the option of value [i], if there is one. *)
Definition set_day_value (i : nat) (p : Page) : Page :=
  set_day_selectedIndex
    (if (i <? length (day_options p))%nat then Some i else None) p.

Definition NULL_ROUTES : JsError :=
  TypeError (lit "Cannot read properties of null (reading 'routes')").
Definition UNDEFINED_MAP_PATH : JsError :=
  TypeError (lit "Cannot read properties of undefined (reading 'map_path')").

(** [showMap(idx)], with [idx] an index or the decimal string of one
    ([Some i]), or the empty string ([None]). *)
Definition showMap (idx : option nat) : Js unit :=
  let* plan := gets lastPlan in
  match plan with
  | None => throw NULL_ROUTES
  | Some resp =>
      match idx ≫= (fun i => routes resp !! i) with
      | None => throw UNDEFINED_MAP_PATH
      | Some info => modify (set_mapFrame_src (map_path info))
      end
  end.

(** [lastPlan.routes.some(route => route.day != null)] *)
Definition some_day (routes : list RouteInfo) : bool :=
  existsb (fun route => bool_decide (day route ≠ None)) routes.

Definition updateView (v : Variant) : Js unit :=
  let* view := gets (fun p => value p Field.view) in
  match v with
  | Gated =>
      let* plan := gets lastPlan in
      let* mandatory :=
        match plan with
        | None => throw NULL_ROUTES
        | Some resp => ret (some_day (routes resp))
        end in
      modify (set_list_hidden (bool_decide (view ≠ LIST))) ;;
      modify (set_map_hidden (bool_decide (view ≠ MAP))) ;;
      modify (set_day_hidden (negb (bool_decide (view = MAP) && mandatory))) ;;
      match plan with
      | None => ret tt
      | Some resp =>
          if bool_decide (view = LIST) then renderList resp
          else
            let* idx := gets day_value in
            showMap (if mandatory then idx else Some 0%nat)
      end
  | Ungated =>
      modify (set_list_hidden (bool_decide (view ≠ LIST))) ;;
      modify (set_map_hidden (bool_decide (view ≠ MAP))) ;;
      modify (set_day_hidden (bool_decide (view ≠ MAP))) ;;
      let* plan := gets lastPlan in
      match plan with
      | None => ret tt
      | Some resp =>
          if bool_decide (view = LIST) then renderList resp
          else
            let* idx := gets day_value in
            showMap idx
      end
  end.

(** [localStorage.setItem(key, v)] *)
Definition setItem (key v : jsstring) : Js unit :=
  modify (fun p => set_localStorage (<[key := v]> (localStorage p)) p).

(** [document.getElementById(id).value = v] *)
Definition set_field (id : Field.id) (v : jsstring) : Js unit :=
  modify (fun p => set_value (<[id := v]> (value p)) p).

(** The click listener of the heading. *)
Definition toggle_theme : Js unit :=
  let* isDarkMode := gets (fun p => negb (body_dark p)) in
  modify (set_body_dark isDarkMode) ;;
  setItem THEME (if isDarkMode then DARK else LIGHT).

(** The change listener of the day selector. *)
Definition day_change : Js unit :=
  let* idx := gets day_value in
  showMap idx.

(** The input and change listeners that write a control through to
    storage. *)
Definition store_field (id : Field.id) : Js unit :=
  let* v := gets (fun p => value p id) in
  setItem (Field.name id) v.

(** [setValue(id)] inside [restoreForm]; the flag [hadParams] of the
    enclosing scope is passed in and out. *)
Definition setValue (params : SearchParams.t) (id : Field.id)
    (hadParams : bool) : Js bool :=
  match SearchParams.get params (Field.name id) with
  | Some v =>
      set_field id v ;;
      setItem (Field.name id) v ;;
      ret true
  | None =>
      let* stored := gets (fun p => localStorage p !! Field.name id) in
      match stored with
      | Some v => set_field id v ;; ret hadParams
      | None => ret hadParams
      end
  end.

(** [restoreForm()], which only the variant with the gated selector has. *)
Definition restoreForm : Js unit :=
  let* params := gets (fun p => search (location p)) in
  let* h1 := setValue params Field.home false in
  let* h2 := setValue params Field.places h1 in
  let* h3 := setValue params Field.mandatory h2 in
  let* h4 := setValue params Field.altAddresses h3 in
  let* h5 := setValue params Field.mode h4 in
  let* hadParams := setValue params Field.view h5 in
  let* theme := gets (fun p => localStorage p !! THEME) in
  modify (set_body_dark (bool_decide (theme = Some DARK))) ;;
  updateView Gated ;;
  if hadParams
  then modify (fun p =>
         set_location
           {| pathname := pathname (location p); search := [];
              hash := hash (location p) |} p)
  else ret tt.

(** The URL [share()] hands to the clipboard. *)
Definition share_url (p : Page) : Url :=
  let url := location p in
  let params := search url in
  let set := SearchParams.set in
  let params := set params (lit "home") (trim (value p Field.home)) in
  let params := set params (lit "places") (value p Field.places) in
  let params := set params (lit "mandatory") (value p Field.mandatory) in
  let params := set params (lit "altAddresses") (value p Field.altAddresses) in
  let params := set params (lit "mode") (value p Field.mode) in
  let params := set params (lit "view") (value p Field.view) in
  {| pathname := pathname url; search := params; hash := hash url |}.

Definition share : Js unit :=
  let* url := gets share_url in
  modify (set_clipboard (Some url)).

(** The payload [plan()] builds from the form; the parse of the mandatory
    field can raise. *)
Definition build_payload (p : Page) : JsError + Request.Payload :=
  let home := trim (value p Field.home) in
  let places := Parser.places_list (value p Field.places) in
  match Parser.mandatory_by_day (value p Field.mandatory) with
  | inl e => inl e
  | inr mandatory =>
      let altAddresses := Parser.alt_addresses (value p Field.altAddresses) in
      inr {| Request.city_name := lit "custom";
             Request.config :=
               {| Request.home := if truthy home then Some home else None;
                  Request.places := places;
                  Request.mandatory_by_day := mandatory;
                  Request.alt_addresses := altAddresses;
                  Request.mode := value p Field.mode |} |}
  end.

(** [alert(text)] *)
Definition alert (text : jsstring) : Js unit :=
  modify (fun p => set_alerts (alerts p ++ [text]) p).

(** [plan()].  The endpoint is the function [fetch] from the payload sent
    to the outcome of the call; the call runs to completion before any
    other listener. *)
Definition plan (v : Variant) (fetch : Request.Payload -> FetchOutcome)
  : Js unit :=
  modify (set_list_innerHTML []) ;;
  modify (set_mapFrame_src []) ;;
  let* payload := (fun p => lift (build_payload p) p) in
  try_catch
    (let* resp :=
       match fetch payload with
       | NetworkFailure e => throw e
       | HttpFailure text => throw (Error text)
       | HttpSuccess json => lift json
       end in
     modify (set_lastPlan (Some resp)) ;;
     populateDays resp ;;
     modify (set_day_value 0) ;;
     updateView v)
    (fun e => alert (lit "Planning failed: " ++ message e)).

End Script.

(** ** Reference rules and fixtures for the statements *)

Module Reference.

Import Parser.

(** Split once on the first separator: what precedes it, and everything
    that follows it, later separators included. *)
Fixpoint split_first (sep : N) (s : jsstring) : jsstring * option jsstring :=
  match s with
  | [] => ([], None)
  | c :: s' =>
      if c =? sep then ([], Some s')
      else let '(d, r) := split_first sep s' in (c :: d, r)
  end.

(** The places of a line: comma-split, trimmed, empty tokens dropped. *)
Definition tokens (placesPart : jsstring) : list jsstring :=
  List.filter truthy (List.map trim (split COMMA placesPart)).

(** A line under the rule "split once on the first [|]". *)
Definition entry_first (line : jsstring) : option (jsstring * list jsstring) :=
  match split_first PIPE line with
  | (day, Some placesPart) =>
      if truthy day && truthy placesPart
      then Some (day, tokens placesPart) else None
  | (_, None) => None
  end.

(** A line under the rule "split on every [|], keep the first two
    segments". *)
Definition entry_two (line : jsstring) : option (jsstring * list jsstring) :=
  match day_places line with
  | (day, Some placesPart) =>
      if truthy day && truthy placesPart
      then Some (day, tokens placesPart) else None
  | (_, None) => None
  end.

(** The places filed under [day], in line order then token order; no key
    when there are none. *)
Definition grouped (entries : list (jsstring * list jsstring))
    (day : jsstring) : option (list jsstring) :=
  match concat (List.map snd
          (List.filter (fun e => bool_decide (e.1 = day)) entries)) with
  | [] => None
  | l => Some l
  end.

(** Appending tokens to the list of a day; nothing happens, not even the
    creation of the key, when there is no token. *)
Definition add_tokens (m : gmap jsstring (list jsstring)) (day : jsstring)
    (l : list jsstring) : gmap jsstring (list jsstring) :=
  match l with
  | [] => m
  | _ => <[day := default [] (m !! day) ++ l]> m
  end.

Definition add_entries (m : gmap jsstring (list jsstring))
    (entries : list (jsstring * list jsstring))
  : gmap jsstring (list jsstring) :=
  fold_left (fun m e => add_tokens m e.1 e.2) entries m.

(** A result of the mandatory parse agrees with a line rule. *)
Definition follows (entry : jsstring -> option (jsstring * list jsstring))
    (value : jsstring) (result : JsError + gmap jsstring (list jsstring))
  : Prop :=
  exists m, result = inr m /\
    forall day, m !! day = grouped (omap entry (surviving_lines value)) day.

(** No contributing line names a day that collides with a property
    inherited from [Object.prototype]. *)
Definition own_days (value : jsstring) : bool :=
  forallb (fun e => negb (inherited e.1) || negb (bool_decide (e.2 ≠ [])))
          (omap entry_two (surviving_lines value)).

(** Every key is trimmed and not empty. *)
Definition trimmed_keys (m : gmap jsstring jsstring) : Prop :=
  forall k, is_Some (m !! k) -> trim k = k /\ k <> [].

(** An alt-address line: its key and replacement, when it has a key. *)
Definition alt_entry (line : jsstring) : option (jsstring * jsstring) :=
  match split PIPE line with
  | original :: replacement =>
      if truthy original
      then Some (trim original, trim (join [PIPE] replacement))
      else None
  | [] => None
  end.

End Reference.

Module Fixture.

Definition no_url : Url := {| pathname := lit "/"; search := []; hash := [] |}.

(** A page as first loaded: empty controls, nothing planned. *)
Definition blank : Page :=
  {| lastPlan := None; value := fun _ => [];
     list_innerHTML := []; list_hidden := false; map_hidden := true;
     day_hidden := true; day_options := []; day_selectedIndex := None;
     mapFrame_src := []; body_dark := false; localStorage := ∅;
     location := no_url; alerts := []; clipboard := None |}.

Definition with_field (id : Field.id) (v : jsstring) (p : Page) : Page :=
  set_value (<[id := v]> (value p)) p.

Definition route (d : option Z) (ps : list jsstring) (m t : Z)
    (path : jsstring) : Plan.RouteInfo :=
  {| Plan.day := d; Plan.places := ps; Plan.distance_m := m;
     Plan.time_minutes := t; Plan.map_path := path |}.

End Fixture.

Module Rule.

Import Script.

(** The page after the three [classList.toggle] calls. *)
Definition toggled (v : Variant) (mandatory : bool) (p : Page) : Page :=
  let view := value p Field.view in
  set_day_hidden
    (match v with
     | Gated => negb (bool_decide (view = MAP) && mandatory)
     | Ungated => bool_decide (view ≠ MAP)
     end)
    (set_map_hidden (bool_decide (view ≠ MAP))
       (set_list_hidden (bool_decide (view ≠ LIST)) p)).

(** The value the precedence rule gives a control on initialisation:
    the query parameter, else the stored value, else the markup value. *)
Definition resolved (params : SearchParams.t)
    (storage : gmap jsstring jsstring) (markup : Field.id -> jsstring)
    (id : Field.id) : jsstring :=
  match SearchParams.get params (Field.name id) with
  | Some v => v
  | None => default (markup id) (storage !! Field.name id)
  end.

(** What the rule leaves in storage under the name of a control. *)
Definition persisted (params : SearchParams.t)
    (storage : gmap jsstring jsstring) (id : Field.id) : option jsstring :=
  match SearchParams.get params (Field.name id) with
  | Some v => Some v
  | None => storage !! Field.name id
  end.

(** The page after one call of [setValue]. *)
Definition resolve (params : SearchParams.t) (id : Field.id) (p : Page)
  : Page :=
  match SearchParams.get params (Field.name id) with
  | Some v =>
      set_localStorage (<[Field.name id := v]> (localStorage p))
        (set_value (<[id := v]> (value p)) p)
  | None =>
      match localStorage p !! Field.name id with
      | Some v => set_value (<[id := v]> (value p)) p
      | None => p
      end
  end.

Definition resolve_all (params : SearchParams.t) (ids : list Field.id)
    (p : Page) : Page :=
  fold_left (fun p id => resolve params id p) ids p.

(** Opening a shared link: a fresh page [fresh] of the same script (its
    controls at their markup values, whatever its storage holds) is loaded
    at the URL that [share] built on page [p]; the script starts without
    a plan and ends with the call of [restoreForm]. *)
Definition opened (p fresh : Page) : Page :=
  snd (restoreForm (set_lastPlan None (set_location (share_url p) fresh))).

(** The value [share] puts in the link for a control. *)
Definition shared (p : Page) (id : Field.id) : jsstring :=
  match id with
  | Field.home => trim (value p Field.home)
  | _ => value p id
  end.

(** The round trip as C2 states it. *)
Definition identical_round_trip (p fresh : Page) : Prop :=
  forall id,
    value (opened p fresh) id = value p id /\
    localStorage (opened p fresh) !! Field.name id = Some (value p id).

(** The alert as C4 states it: the body text alone. *)
Definition alert_is_body (v : Variant)
    (fetch : Request.Payload -> FetchOutcome) (M : jsstring) (p : Page)
  : Prop :=
  alerts (snd (plan v fetch p)) = alerts p ++ [M].

End Rule.

(** ** Listeners and page load *)

Module Session.

Import Script.

(** The listeners of one event run in registration order; an exception
    raised by one of them is reported and stops neither the others nor
    the page, which keeps the mutations made before it. *)
Definition dispatch (listeners : list (Js unit)) (p : Page) : Page :=
  fold_left (fun p l => snd (l p)) listeners p.

(** The listeners registered for the input or change event of a tracked
    control.  The second script registers [updateView] on the view
    selector and nothing that writes to storage. *)
Definition listeners (v : Variant) (id : Field.id) : list (Js unit) :=
  match v, id with
  | Gated, Field.view => [updateView Gated; store_field Field.view]
  | Gated, _ => [store_field id]
  | Ungated, Field.view => [updateView Ungated]
  | Ungated, _ => []
  end.

(** The user gives the control [id] the value [x]: the control takes it,
    then the listeners of the control run. *)
Definition input (v : Variant) (id : Field.id) (x : jsstring) (p : Page)
  : Page :=
  dispatch (listeners v id) (snd (set_field id x p)).

(** The user picks option [i] of the day selector: the change listener
    runs [showMap(event.target.value)]. *)
Definition pick_day (i : nat) (p : Page) : (JsError + unit) * Page :=
  day_change (set_day_value i p).

(** The script run on a page just parsed ([fresh]: the controls at their
    markup values, the URL, the storage found): [let lastPlan = null], the
    registrations, and in the first script the final call of
    [restoreForm]. *)
Definition boot (v : Variant) (fresh : Page) : (JsError + unit) * Page :=
  match v with
  | Gated => restoreForm (set_lastPlan None fresh)
  | Ungated => (inr tt, set_lastPlan None fresh)
  end.

(** Reloading: the document is parsed afresh and finds the storage the
    page [p] left. *)
Definition reload (v : Variant) (fresh p : Page) : Page :=
  snd (boot v (set_localStorage (localStorage p) fresh)).

End Session.

(** ** Notions for the further statements *)

Module Outcome.

Import Script.

(** The page once [plan] has emptied the list region and the map frame. *)
Definition cleared (p : Page) : Page :=
  set_mapFrame_src [] (set_list_innerHTML [] p).

(** The exception a call outcome raises inside the [try] block, if any. *)
Definition failure_of (o : FetchOutcome) : option JsError :=
  match o with
  | NetworkFailure e => Some e
  | HttpFailure text => Some (Error text)
  | HttpSuccess (inl e) => Some e
  | HttpSuccess (inr _) => None
  end.

(** The page once a plan has arrived: the plan is held, the day selector
    has one option per route and shows the first. *)
Definition planned (resp : Plan.PlanResponse) (p : Page) : Page :=
  set_day_selectedIndex
    (match Plan.routes resp with [] => None | _ => Some 0%nat end)
    (set_day_options (List.map label (Plan.routes resp))
       (set_lastPlan (Some resp) (cleared p))).

(** Two pages with the same controls, storage, URL, theme and clipboard. *)
Definition same_session (p q : Page) : Prop :=
  value q = value p /\ localStorage q = localStorage p /\
  location q = location p /\ body_dark q = body_dark p /\
  clipboard q = clipboard p.

(** Two pages that differ at most in what [updateView] writes: the three
    visibility flags, the list markup and the source of the map frame. *)
Definition same_but_view (p q : Page) : Prop :=
  same_session p q /\ alerts q = alerts p /\ lastPlan q = lastPlan p /\
  day_options q = day_options p /\
  day_selectedIndex q = day_selectedIndex p.

(** How many pairs of a query carry a name. *)
Definition occurrences (params : SearchParams.t) (name : jsstring) : nat :=
  length (List.filter (fun pr => bool_decide (pr.1 = name)) params).

(** Whether a query holds one of the six tracked names. *)
Definition had_params (params : SearchParams.t) : bool :=
  existsb (fun id => bool_decide (is_Some (SearchParams.get params (Field.name id))))
          Field.all.

(** No key of the map is a name inherited from [Object.prototype]. *)
Definition own_keys (m : gmap jsstring (list jsstring)) : Prop :=
  forall k, is_Some (m !! k) -> inherited k = false.

(** The text of the error raised by a day named like an inherited
    property. *)
Definition NO_PUSH : JsError :=
  TypeError (lit "(intermediate value).push is not a function").

End Outcome.

(** ** Decimal numerals, for the statements about numbers shown *)

Module Numeral.

Local Open Scope Z_scope.






End Numeral.

(** * Properties *)

(** ** Strings *)

Section StringFacts.

Lemma trimStart_head (s : jsstring) :
  trimStart s = [] \/
  exists c t, trimStart s = c :: t /\ is_ws c = false.
Proof.
  induction s as [|c s IH]; simpl; [by left|].
  destruct (is_ws c) eqn:E; [exact IH|right; eauto].
Qed.

Lemma trimStart_nonws (c : N) (s : jsstring) :
  is_ws c = false -> trimStart (c :: s) = c :: s.
Proof. intros H. simpl. by rewrite H. Qed.

Lemma trimStart_snoc (s : jsstring) (c : N) :
  is_ws c = false -> trimStart (s ++ [c]) = trimStart s ++ [c].
Proof.
  intros H. induction s as [|d s IH]; simpl.
  - by rewrite H.
  - destruct (is_ws d); [exact IH|done].
Qed.

Lemma trimEnd_cons (c : N) (s : jsstring) :
  is_ws c = false -> trimEnd (c :: s) = c :: trimEnd s.
Proof.
  intros H. unfold trimEnd. simpl.
  rewrite (trimStart_snoc _ _ H), rev_app_distr. reflexivity.
Qed.

Lemma trim_cons (c : N) (s : jsstring) :
  is_ws c = false -> trim (c :: s) = c :: trimEnd s.
Proof.
  intros H. unfold trim. rewrite (trimStart_nonws _ _ H).
  by apply trimEnd_cons.
Qed.

Lemma trimStart_idem (s : jsstring) : trimStart (trimStart s) = trimStart s.
Proof.
  destruct (trimStart_head s) as [->|(c & t & -> & H)]; [done|].
  by apply trimStart_nonws.
Qed.

Lemma trimEnd_idem (s : jsstring) : trimEnd (trimEnd s) = trimEnd s.
Proof.
  unfold trimEnd. by rewrite rev_involutive, trimStart_idem.
Qed.

(** A trimmed string is empty or starts with a character that is not
    white space. *)
Lemma trim_head (s : jsstring) :
  trim s = [] \/ exists c t, trim s = c :: t /\ is_ws c = false.
Proof.
  unfold trim.
  destruct (trimStart_head s) as [->|(c & t & -> & H)]; [by left|].
  right. rewrite (trimEnd_cons _ _ H). eauto.
Qed.

Lemma trim_idem (s : jsstring) : trim (trim s) = trim s.
Proof.
  destruct (trim_head s) as [->|(c & t & E & H)]; [done|].
  rewrite E, (trim_cons _ _ H).
  assert (trimEnd (trim s) = trim s) as E'
    by (unfold trim at 1; unfold trim; apply trimEnd_idem).
  rewrite E, (trimEnd_cons _ _ H) in E'. congruence.
Qed.

Lemma split_nonempty (sep : N) (s : jsstring) : split sep s <> [].
Proof.
  destruct s as [|c s]; simpl; [done|].
  destruct (c =? sep); [done|]. by destruct (split sep s).
Qed.

(** The first segment of a split keeps the first character of the string
    unless that character is the separator. *)
Lemma split_head (sep c : N) (s : jsstring) :
  exists rest,
    split sep (c :: s) =
      (if c =? sep then [] else c :: default [] (head (split sep s))) :: rest.
Proof.
  simpl. destruct (c =? sep); [eauto|].
  destruct (split sep s) eqn:E; simpl; eauto.
Qed.

Lemma surviving_line_head (value line : jsstring) :
  line ∈ surviving_lines value ->
  exists c t, line = c :: t /\ is_ws c = false.
Proof.
  unfold surviving_lines. rewrite list_elem_of_In.
  intros [Hin Ht]%filter_In.
  apply in_map_iff in Hin as (x & <- & _).
  destruct (trim_head x) as [E|?]; [|done].
  rewrite E in Ht. discriminate.
Qed.

End StringFacts.

(** ** TextBlockParser *)

Section MandatoryFacts.

Import Parser Reference.

Lemma push_place_own (m : gmap jsstring (list jsstring)) day place :
  is_Some (m !! day) \/ inherited day = false ->
  push_place m day place = inr (<[day := default [] (m !! day) ++ [place]]> m).
Proof.
  unfold push_place. intros [[l ->]| ->]; [done|].
  by destruct (m !! day).
Qed.

Lemma push_places_tokens (m : gmap jsstring (list jsstring)) day toks :
  is_Some (m !! day) \/ inherited day = false ->
  push_places m day toks =
    inr (add_tokens m day (List.filter truthy (List.map trim toks))).
Proof.
  revert m. induction toks as [|place rest IH]; intros m H; simpl; [done|].
  destruct (truthy (trim place)) eqn:Et; [|by apply IH].
  rewrite (push_place_own _ _ _ H), IH
    by (left; rewrite lookup_insert_eq; eauto).
  f_equal. unfold add_tokens at 1. rewrite lookup_insert_eq. simpl.
  destruct (List.filter truthy (List.map trim rest)) as [|t ts]; [done|].
  by rewrite insert_insert_eq, <- app_assoc.
Qed.

Lemma push_places_no_token (m : gmap jsstring (list jsstring)) day toks :
  List.filter truthy (List.map trim toks) = [] ->
  push_places m day toks = inr m.
Proof.
  induction toks as [|place rest IH]; simpl; [done|].
  destruct (truthy (trim place)); [done|exact IH].
Qed.

(** One line of the source loop against its entry. *)
Lemma mandatory_line_entry (m : gmap jsstring (list jsstring)) line :
  match entry_two line with
  | Some (day, toks) =>
      toks = [] \/ inherited day = false ->
      mandatory_line m line = inr (add_tokens m day toks)
  | None => mandatory_line m line = inr m
  end.
Proof.
  unfold entry_two, mandatory_line.
  destruct (day_places line) as [day [pp|]]; simpl.
  - destruct (truthy day), (truthy pp); simpl; try done.
    intros [E|E].
    + rewrite E. simpl. by apply push_places_no_token.
    + apply push_places_tokens. by right.
  - by rewrite orb_true_r.
Qed.

Lemma mandatory_lines_entries (m : gmap jsstring (list jsstring)) lines :
  forallb (fun e => negb (inherited e.1) || negb (bool_decide (e.2 ≠ [])))
          (omap entry_two lines) = true ->
  mandatory_lines m lines = inr (add_entries m (omap entry_two lines)).
Proof.
  revert m. induction lines as [|line rest IH]; intros m H; simpl; [done|].
  pose proof (mandatory_line_entry m line) as Hl.
  simpl in H. destruct (entry_two line) as [[day toks]|].
  - simpl in H. apply andb_true_iff in H as [H1 H2].
    rewrite Hl, (IH _ H2); [done|].
    apply orb_true_iff in H1 as [H1|H1].
    + right. by destruct (inherited day).
    + left. apply negb_true_iff, bool_decide_eq_false in H1.
      by destruct toks; [|exfalso; apply H1].
  - rewrite Hl. by apply IH.
Qed.

Lemma lookup_add_tokens (m : gmap jsstring (list jsstring)) day l d :
  add_tokens m day l !! d =
    if bool_decide (day = d)
    then match l with [] => m !! d | _ => Some (default [] (m !! d) ++ l) end
    else m !! d.
Proof.
  unfold add_tokens. case_bool_decide as E.
  - subst d. destruct l; [done|by rewrite lookup_insert_eq].
  - destruct l; [done|by rewrite lookup_insert_ne].
Qed.

Lemma lookup_add_entries entries :
  forall (m : gmap jsstring (list jsstring)) d,
  add_entries m entries !! d =
    match grouped entries d with
    | None => m !! d
    | Some l => Some (default [] (m !! d) ++ l)
    end.
Proof.
  unfold add_entries, grouped.
  induction entries as [|[day toks] rest IH]; intros m d; simpl; [done|].
  rewrite IH, lookup_add_tokens. clear IH.
  case_bool_decide as E; simpl; [|done].
  destruct toks as [|t ts]; simpl; [done|].
  destruct (concat _) as [|x xs]; simpl.
  - by rewrite app_nil_r.
  - by rewrite <- app_assoc.
Qed.

End MandatoryFacts.

Section MandatoryClaims.

Import Parser Reference.

(** The line ["1|A,B|C"]: the third segment is dropped by the
    destructuring, so the places are [A] and [B]. *)
Example mandatory_three_segments :
  mandatory_by_day (lit "1|A,B|C") = inr {[ lit "1" := [lit "A"; lit "B"] ]}.
Proof. vm_compute. reflexivity. Qed.

(** C3, as stated, fails: under "split once on the first [|]" the line
    ["1|A,B|C"] would file [A] and [B|C] under day [1]; the script files
    [A] and [B]. *)
Lemma mandatory_first_pipe_rule_fails :
  ~ follows entry_first (lit "1|A,B|C") (mandatory_by_day (lit "1|A,B|C")).
Proof.
  intros (m & E & H). rewrite mandatory_three_segments in E.
  injection E as <-. specialize (H (lit "1")).
  vm_compute in H. discriminate H.
Qed.

(** C3 (amended): for every raw mandatory text whose contributing lines
    name no day inherited from [Object.prototype], the parse succeeds and
    equals the rule: each trimmed non-empty line is split on every [|],
    the first segment is the day and the second alone the places part
    (later segments are dropped); a line with an empty or missing side is
    skipped; the places part is split on [,], tokens are trimmed, empty
    tokens dropped, and the rest appended under the day key in order. *)
Theorem mandatory_by_day_rule (value : jsstring) :
  own_days value = true ->
  follows entry_two value (mandatory_by_day value).
Proof.
  intros H. unfold follows, mandatory_by_day.
  eexists. split.
  - apply mandatory_lines_entries. exact H.
  - intros day. rewrite lookup_add_entries, lookup_empty.
    by destruct (grouped _ day).
Qed.

Lemma mandatory_by_day_rule_witness :
  let value := lit "1|A, B|x" ++ [LF] ++ lit "2|C,," ++ [CR; LF] ++ lit "1|D" in
  own_days value = true /\ follows entry_two value (mandatory_by_day value).
Proof.
  split; [reflexivity|].
  apply (mandatory_by_day_rule
           (lit "1|A, B|x" ++ [LF] ++ lit "2|C,," ++ [CR; LF] ++ lit "1|D")).
  reflexivity.
Defined.

(** A day named like an inherited property makes the parse raise: the
    lookup finds the inherited value, which has no [push]. *)
Lemma mandatory_inherited_day_raises :
  mandatory_by_day (lit "constructor|A") =
    inl (TypeError (lit "(intermediate value).push is not a function")).
Proof. vm_compute. reflexivity. Qed.

(** The three lines of the specification that contribute nothing. *)
Lemma mandatory_skipped_lines :
  mandatory_by_day (lit "Paris") = inr ∅ /\
  mandatory_by_day (lit "2|") = inr ∅ /\
  mandatory_by_day (lit "|Paris") = inr ∅.
Proof. repeat split; vm_compute; reflexivity. Qed.

Lemma split_no_separator (sep : N) (s : jsstring) :
  sep ∉ s -> split sep s = [s].
Proof.
  induction s as [|c s IH]; [done|]. intros H.
  apply not_elem_of_cons in H as [Hc Hs]. simpl.
  destruct (N.eqb_spec c sep) as [->|_]; [done|].
  by rewrite (IH Hs).
Qed.

Lemma split_as_split_first (sep : N) (s : jsstring) :
  split sep s =
    match split_first sep s with
    | (d, Some r) => d :: split sep r
    | (d, None) => [d]
    end.
Proof.
  induction s as [|c s IH]; [done|]. simpl.
  destruct (c =? sep); [done|].
  rewrite IH. by destruct (split_first sep s) as [d [r|]].
Qed.

(** The two line rules differ only on lines with a second separator. *)
Lemma entry_rules_agree (line : jsstring) :
  (forall d r, split_first PIPE line = (d, Some r) -> PIPE ∉ r) ->
  entry_first line = entry_two line.
Proof.
  intros H. unfold entry_first, entry_two, day_places.
  rewrite split_as_split_first.
  destruct (split_first PIPE line) as [d [r|]]; [|done].
  by rewrite (split_no_separator _ _ (H d r eq_refl)).
Qed.

End MandatoryClaims.

Section AltAddressFacts.

Import Parser Reference.

Lemma alt_line_entry (m : gmap jsstring jsstring) line :
  alt_line m line =
    match alt_entry line with
    | Some (k, v) => assign m k v
    | None => m
    end.
Proof.
  unfold alt_line, alt_entry.
  destruct (split PIPE line) as [|original replacement]; [done|].
  by destruct (truthy original).
Qed.

(** The key of a line that starts with a character other than white
    space is trimmed and not empty. *)
Lemma alt_entry_key line c t k v :
  line = c :: t -> is_ws c = false ->
  alt_entry line = Some (k, v) -> trim k = k /\ k <> [].
Proof.
  intros -> Hc. unfold alt_entry.
  destruct (split_head PIPE c t) as [rest ->].
  destruct (c =? PIPE); simpl; [done|].
  intros [= <- _]. split; [apply trim_idem|].
  by rewrite (trim_cons _ _ Hc).
Qed.

Lemma assign_lookup (m : gmap jsstring jsstring) k v k' :
  is_Some (assign m k v !! k') -> k' = k \/ is_Some (m !! k').
Proof.
  unfold assign. case_bool_decide; [by right|].
  destruct (decide (k' = k)) as [->|Hne]; [by left|].
  rewrite lookup_insert_ne by done. by right.
Qed.

Lemma alt_lines_trimmed_keys lines :
  forall m, trimmed_keys m ->
  (forall line, line ∈ lines -> exists c t, line = c :: t /\ is_ws c = false) ->
  trimmed_keys (alt_lines m lines).
Proof.
  unfold alt_lines.
  induction lines as [|line rest IH]; intros m Hm Hl; simpl; [done|].
  apply IH; [|intros l Hin; apply Hl; by right].
  rewrite alt_line_entry.
  destruct (alt_entry line) as [[k v]|] eqn:E; [|done].
  destruct (Hl line) as (c & t & El & Hc); [by left|].
  intros k' [->|Hk']%assign_lookup; [|by apply Hm].
  eapply alt_entry_key; eauto.
Qed.

(** Every key of the alt-address map of any raw text is trimmed and not
    empty. *)
Lemma alt_addresses_trimmed_keys (value : jsstring) :
  trimmed_keys (alt_addresses value).
Proof.
  apply alt_lines_trimmed_keys.
  - intros k [x Hx]. by rewrite lookup_empty in Hx.
  - intros line. apply surviving_line_head.
Qed.

Lemma alt_lines_untouched lines :
  forall (m : gmap jsstring jsstring) k,
  (forall l v, l ∈ lines -> alt_entry l <> Some (k, v)) ->
  alt_lines m lines !! k = m !! k.
Proof.
  unfold alt_lines.
  induction lines as [|line rest IH]; intros m k H; simpl; [done|].
  rewrite IH by (intros l v Hin; apply H; by right).
  rewrite alt_line_entry.
  destruct (alt_entry line) as [[k' v']|] eqn:E; [|done].
  unfold assign. case_bool_decide; [done|].
  apply lookup_insert_ne. intros ->.
  by apply (H line v'); [left|].
Qed.

Lemma alt_lines_last (l1 l2 : list jsstring) line k v :
  alt_entry line = Some (k, v) -> k <> PROTO ->
  (forall l v', l ∈ l2 -> alt_entry l <> Some (k, v')) ->
  alt_lines ∅ (l1 ++ line :: l2) !! k = Some v.
Proof.
  intros E Hk H. unfold alt_lines. rewrite fold_left_app. simpl.
  fold (alt_lines (alt_line (fold_left alt_line l1 ∅) line) l2).
  rewrite (alt_lines_untouched _ _ _ H), alt_line_entry, E.
  unfold assign. rewrite bool_decide_eq_false_2 by done.
  apply lookup_insert_eq.
Qed.

End AltAddressFacts.

Section MandatoryKeys.

Import Parser.

Lemma push_places_keys toks :
  forall (m m' : gmap jsstring (list jsstring)) day d,
  push_places m day toks = inr m' ->
  is_Some (m' !! d) -> is_Some (m !! d) \/ d = day.
Proof.
  induction toks as [|place rest IH]; intros m m' day d; simpl.
  - intros [= <-]. by left.
  - destruct (truthy (trim place)); [|by apply IH].
    destruct (push_place m day (trim place)) as [e|m1] eqn:E; [done|].
    intros H Hd. destruct (IH _ _ _ _ H Hd) as [H1|]; [|by right].
    destruct (decide (d = day)) as [|Hne]; [by right|left].
    unfold push_place in E.
    destruct (m !! day); [|destruct (inherited day); [done|]];
      injection E as <-; by rewrite lookup_insert_ne in H1.
Qed.

(** Each key of the mandatory map is the first segment of a surviving
    line, exactly as the split produced it. *)
Lemma mandatory_lines_keys lines :
  forall (m m' : gmap jsstring (list jsstring)) d,
  mandatory_lines m lines = inr m' ->
  is_Some (m' !! d) ->
  is_Some (m !! d) \/
  exists line, line ∈ lines /\ head (split PIPE line) = Some d.
Proof.
  induction lines as [|line rest IH]; intros m m' d; simpl.
  - intros [= <-]. by left.
  - destruct (mandatory_line m line) as [e|m1] eqn:E; [done|].
    intros H Hd. destruct (IH _ _ _ H Hd) as [H1|(l & Hin & Hl)].
    + unfold mandatory_line, day_places in E.
      destruct (split PIPE line) as [|day segs] eqn:Es;
        [by destruct (split_nonempty _ _ Es)|].
      destruct (negb (truthy day) || negb (places_truthy (head segs))).
      * injection E as <-. by left.
      * destruct (push_places_keys _ _ _ _ _ E H1) as [H2| ->]; [by left|].
        right. exists line. rewrite Es. split; [by left|done].
    + right. exists l. split; [by right|done].
Qed.

End MandatoryKeys.

Section AltAddressKeys.

Import Parser Reference.

(** The entry of a line, in terms of the split. *)
Lemma alt_entry_split line k v :
  alt_entry line = Some (k, v) <->
  exists original rest,
    split PIPE line = original :: rest /\ original <> [] /\
    k = trim original /\ v = trim (join [PIPE] rest).
Proof.
  unfold alt_entry. split.
  - destruct (split PIPE line) as [|original rest]; [done|].
    destruct original as [|c o]; [done|]. simpl. intros [= <- <-].
    by exists (c :: o), rest.
  - intros (original & rest & -> & Hne & -> & ->).
    by destruct original.
Qed.

(** The keys after the loop: those held before, and the key of every
    line that has one, [__proto__] excepted. *)
Lemma alt_lines_keys lines :
  forall (m : gmap jsstring jsstring) k,
  is_Some (alt_lines m lines !! k) <->
  is_Some (m !! k) \/
  (k <> PROTO /\ exists line v, line ∈ lines /\ alt_entry line = Some (k, v)).
Proof.
  unfold alt_lines.
  induction lines as [|line rest IH]; intros m k; simpl.
  - split; [by left|]. intros [H|(_ & l & v & Hin & _)]; [done|inversion Hin].
  - rewrite IH, alt_line_entry. clear IH. split.
    + intros [H|(Hk & l & v & Hin & E)].
      * destruct (alt_entry line) as [[k' v']|] eqn:E; [|by left].
        unfold assign in H. case_bool_decide as Hp; [by left|].
        destruct (decide (k = k')) as [->|Hne].
        -- right. split; [done|]. exists line, v'. split; [by left|done].
        -- rewrite lookup_insert_ne in H by done. by left.
      * right. split; [done|]. exists l, v. split; [by right|done].
    + intros [H|(Hk & l & v & Hin & E)].
      * left. destruct (alt_entry line) as [[k' v']|]; [|done].
        unfold assign. case_bool_decide; [done|].
        destruct (decide (k = k')) as [->|Hne].
        -- rewrite lookup_insert_eq. eauto.
        -- by rewrite lookup_insert_ne.
      * apply elem_of_cons in Hin as [->|Hin].
        -- left. rewrite E. unfold assign.
           rewrite bool_decide_eq_false_2 by done.
           rewrite lookup_insert_eq. eauto.
        -- right. split; [done|]. by exists l, v.
Qed.

(** The keys of the alt-address map of a text are exactly the trimmed
    first segments of its lines, when not empty before trimming and not
    [__proto__]. *)
Lemma alt_addresses_keys (value k : jsstring) :
  is_Some (alt_addresses value !! k) <->
  k <> PROTO /\
  exists line original rest,
    line ∈ surviving_lines value /\
    split PIPE line = original :: rest /\ original <> [] /\
    k = trim original.
Proof.
  unfold alt_addresses. rewrite alt_lines_keys. split.
  - intros [H|(Hk & line & v & Hin & E)].
    + rewrite lookup_empty in H. by destruct H.
    + split; [done|].
      apply alt_entry_split in E as (original & rest & Hs & Hne & -> & _).
      by exists line, original, rest.
  - intros (Hk & line & original & rest & Hin & Hs & Hne & ->).
    right. split; [done|].
    exists line, (trim (join [PIPE] rest)). split; [done|].
    apply alt_entry_split. by exists original, rest.
Qed.

End AltAddressKeys.

Section ParserClaims.

Import Parser Reference.

(** C7: the alt-address parse maps line ["A|B|C"] to [A -> "B|C"], line
    ["A"] to [A -> ""], line ["|B"] to no entry; and for every raw text the
    value stored under a key is the replacement of the last surviving line
    with that key (for every key an object can store, that is every key
    but [__proto__]). *)
Theorem alt_addresses_cases :
  alt_addresses (lit "A|B|C") !! lit "A" = Some (lit "B|C") /\
  alt_addresses (lit "A") !! lit "A" = Some [] /\
  alt_addresses (lit "|B") = ∅ /\
  forall (value : jsstring) l1 line l2 k v,
    surviving_lines value = l1 ++ line :: l2 ->
    alt_entry line = Some (k, v) -> k <> PROTO ->
    (forall l v', l ∈ l2 -> alt_entry l <> Some (k, v')) ->
    alt_addresses value !! k = Some v.
Proof.
  split; [by vm_compute|]. split; [by vm_compute|].
  split; [by vm_compute|].
  intros value l1 line l2 k v E. unfold alt_addresses. rewrite E.
  apply alt_lines_last.
Qed.

Lemma alt_addresses_cases_witness :
  let value := lit "A|B" ++ [LF] ++ lit "X|Y" ++ [LF] ++ lit " A |C|D " in
  alt_addresses value !! lit "A" = Some (lit "C|D").
Proof.
  apply (proj2 (proj2 (proj2 alt_addresses_cases))
           (lit "A|B" ++ [LF] ++ lit "X|Y" ++ [LF] ++ lit " A |C|D ")
           [lit "A|B"; lit "X|Y"] (lit "A |C|D") []).
  - reflexivity.
  - reflexivity.
  - intros E. vm_compute in E. discriminate E.
  - intros l v' Hin. inversion Hin.
Defined.

(** C10: in the request built from any form, the keys of [alt_addresses]
    are exactly the first segments of the lines, trimmed (a segment empty
    before trimming and the name [__proto__] give no key): so every key
    is a trimmed, non-empty string, and the lines ["1|A"] and ["1 |B"]
    share the one key ["1"].  Every key of [mandatory_by_day] is the first
    segment of a line as split, not trimmed: the lines ["1|A"] and
    ["1 |A"] give the two keys ["1"] and ["1 "]. *)
Theorem request_keys_asymmetry :
  (forall p payload k,
     Script.build_payload p = inr payload ->
     is_Some (Request.alt_addresses (Request.config payload) !! k) ->
     trim k = k /\ k <> []) /\
  (forall p payload d,
     Script.build_payload p = inr payload ->
     is_Some (Request.mandatory_by_day (Request.config payload) !! d) ->
     exists line, line ∈ surviving_lines (value p Field.mandatory) /\
                  head (split PIPE line) = Some d) /\
  (forall p payload,
     value p Field.mandatory = lit "1|A" ++ [LF] ++ lit "1 |A" ->
     Script.build_payload p = inr payload ->
     Request.mandatory_by_day (Request.config payload) =
       {[ lit "1" := [lit "A"]; lit "1 " := [lit "A"] ]}) /\
  (lit "1" <> lit "1 " /\ trim (lit "1 ") <> lit "1 ") /\
  (forall p payload k,
     Script.build_payload p = inr payload ->
     (is_Some (Request.alt_addresses (Request.config payload) !! k) <->
      k <> PROTO /\
      exists line original rest,
        line ∈ surviving_lines (value p Field.altAddresses) /\
        split PIPE line = original :: rest /\ original <> [] /\
        k = trim original)) /\
  (forall p payload,
     value p Field.altAddresses = lit "1|A" ++ [LF] ++ lit "1 |B" ->
     Script.build_payload p = inr payload ->
     Request.alt_addresses (Request.config payload) =
       {[ lit "1" := lit "B" ]}).
Proof.
  split; [|split; [|split; [|split; [|split]]]].
  - intros p payload k. unfold Script.build_payload.
    destruct (mandatory_by_day _); [done|]. intros [= <-]. simpl.
    apply alt_addresses_trimmed_keys.
  - intros p payload d. unfold Script.build_payload.
    destruct (mandatory_by_day _) as [|m] eqn:E; [done|]. intros [= <-]. simpl.
    intros Hd. destruct (mandatory_lines_keys _ _ _ _ E Hd) as [H|H]; [|done].
    rewrite lookup_empty in H. by destruct H.
  - intros p payload Hv. unfold Script.build_payload. rewrite Hv.
    assert (mandatory_by_day (lit "1|A" ++ [LF] ++ lit "1 |A") =
            inr {[ lit "1" := [lit "A"]; lit "1 " := [lit "A"] ]}) as ->
      by (vm_compute; reflexivity).
    by intros [= <-].
  - split; intros E; vm_compute in E; discriminate E.
  - intros p payload k. unfold Script.build_payload.
    destruct (mandatory_by_day _); [done|]. intros [= <-]. simpl.
    apply alt_addresses_keys.
  - intros p payload Hv. unfold Script.build_payload.
    destruct (mandatory_by_day _); [done|]. intros [= <-]. simpl.
    rewrite Hv. vm_compute. reflexivity.
Qed.

Lemma request_keys_asymmetry_witness :
  let p := Fixture.with_field Field.mandatory
             (lit "1|A" ++ [LF] ++ lit "1 |A")
             (Fixture.with_field Field.altAddresses
                (lit "1|A" ++ [LF] ++ lit "1 |B") Fixture.blank) in
  exists payload,
    Script.build_payload p = inr payload /\
    (trim (lit "1") = lit "1" /\ lit "1" <> []) /\
    (exists line, line ∈ surviving_lines (value p Field.mandatory) /\
                  head (split PIPE line) = Some (lit "1 ")) /\
    Request.mandatory_by_day (Request.config payload) =
      {[ lit "1" := [lit "A"]; lit "1 " := [lit "A"] ]} /\
    is_Some (Request.alt_addresses (Request.config payload) !! lit "1") /\
    Request.alt_addresses (Request.config payload) !! lit "1 " = None /\
    Request.alt_addresses (Request.config payload) = {[ lit "1" := lit "B" ]}.
Proof.
  intros p.
  let r := eval vm_compute in (Script.build_payload p) in
  match r with inr ?x => exists x end.
  assert (Script.build_payload p = inr _) as E by (vm_compute; reflexivity).
  split; [exact E|].
  pose proof request_keys_asymmetry as (H1 & H2 & H3 & _ & H5 & H6).
  split; [|split; [|split; [|split; [|split]]]].
  - apply (H1 p _ (lit "1") E). vm_compute. eauto.
  - apply (H2 p _ (lit "1 ") E). vm_compute. eauto.
  - apply (H3 p _); [reflexivity|exact E].
  - apply (proj2 (H5 p _ (lit "1") E)).
    split; [intros Hp; vm_compute in Hp; discriminate Hp|].
    exists (lit "1 |B"), (lit "1 "), [lit "B"].
    split; [vm_compute; right; left|]. by vm_compute.
  - destruct (Request.alt_addresses _ !! lit "1 ") as [v|] eqn:Ek; [|done].
    destruct (H1 p _ (lit "1 ") E) as [Ht _]; [by rewrite Ek|].
    vm_compute in Ht. discriminate Ht.
  - apply (H6 p _); [reflexivity|exact E].
Defined.

End ParserClaims.

(** ** ViewStateController *)

Section ViewFacts.

Import Plan Script Rule.

Lemma forEach_append (infos : list RouteInfo) (p : Page) :
  forEach
    (fun info =>
       modify (fun p => set_list_innerHTML (list_innerHTML p ++ block info) p))
    infos p =
  (inr tt,
   set_list_innerHTML (list_innerHTML p ++ concat (List.map block infos)) p).
Proof.
  revert p. induction infos as [|info rest IH]; intros p.
  - destruct p. simpl. unfold ret, set_list_innerHTML. simpl.
    by rewrite app_nil_r.
  - simpl. unfold bind at 1, modify at 1. rewrite IH.
    unfold set_list_innerHTML. simpl. by rewrite <- app_assoc.
Qed.

(** [renderList] never raises and replaces the markup of the list region
    by the blocks of the routes, in route order. *)
Lemma renderList_run (resp : PlanResponse) (p : Page) :
  renderList resp p =
    (inr tt, set_list_innerHTML (concat (List.map block (routes resp))) p).
Proof.
  unfold renderList, bind, modify. rewrite forEach_append. reflexivity.
Qed.

Lemma showMap_run (idx : option nat) (p : Page) :
  showMap idx p =
    match lastPlan p with
    | None => (inl NULL_ROUTES, p)
    | Some resp =>
        match idx ≫= (fun i => routes resp !! i) with
        | None => (inl UNDEFINED_MAP_PATH, p)
        | Some info => (inr tt, set_mapFrame_src (map_path info) p)
        end
    end.
Proof.
  unfold showMap, bind, gets. destruct (lastPlan p) as [resp|]; [|done].
  by destruct (idx ≫= _).
Qed.

(** [updateView] on a page that holds a plan. *)
Lemma updateView_plan (v : Variant) (p : Page) (resp : PlanResponse) :
  lastPlan p = Some resp ->
  updateView v p =
    let mandatory := some_day (routes resp) in
    let q := toggled v mandatory p in
    if bool_decide (value p Field.view = LIST) then renderList resp q
    else showMap (match v with
                  | Gated => if mandatory then day_value p else Some 0%nat
                  | Ungated => day_value p
                  end) q.
Proof.
  intros E. destruct v; unfold updateView, bind, gets, modify, ret; simpl;
    rewrite E; simpl; by destruct (bool_decide (value p Field.view = LIST)).
Qed.

(** [updateView] on a page without a plan: the gated variant raises
    before it touches the page, the ungated one only toggles. *)
Lemma updateView_no_plan (v : Variant) (p : Page) :
  lastPlan p = None ->
  updateView v p =
    match v with
    | Gated => (inl NULL_ROUTES, p)
    | Ungated => (inr tt, toggled Ungated false p)
    end.
Proof.
  intros E. destruct v; unfold updateView, bind, gets, modify, ret, throw;
    simpl; rewrite E; reflexivity.
Qed.



End ViewFacts.

Section ViewClaims.

Import Plan Script Rule.

(** C1, on the code: without a plan, [updateView] in the gated variant
    raises a [TypeError] at [lastPlan.routes], before the guard
    [if (!lastPlan) return] and before any visibility update; in the
    ungated variant it returns normally, renders nothing, and only
    updates the three visibility flags. *)
Theorem updateView_no_plan_by_variant (p : Page) :
  let q := set_lastPlan None p in
  updateView Gated q = (inl NULL_ROUTES, q) /\
  fst (updateView Ungated q) = inr tt /\
  list_innerHTML (snd (updateView Ungated q)) = list_innerHTML p /\
  mapFrame_src (snd (updateView Ungated q)) = mapFrame_src p /\
  list_hidden (snd (updateView Ungated q)) =
    bool_decide (value p Field.view ≠ LIST) /\
  map_hidden (snd (updateView Ungated q)) =
    bool_decide (value p Field.view ≠ MAP) /\
  day_hidden (snd (updateView Ungated q)) =
    bool_decide (value p Field.view ≠ MAP).
Proof.
  intros q.
  split; [exact (updateView_no_plan Gated q eq_refl)|].
  rewrite (updateView_no_plan Ungated q eq_refl).
  repeat split.
Qed.


(** C9: [showMap] succeeds exactly when a plan is held and the index
    designates one of its routes; on a plan with no route, [updateView]
    in map view raises in both variants (after the visibility update)
    and leaves the map frame as it was. *)
Theorem showMap_needs_route :
  (forall p idx,
     fst (showMap idx p) = inr tt <->
     exists resp i info,
       lastPlan p = Some resp /\ idx = Some i /\
       routes resp !! i = Some info) /\
  (forall v p,
     lastPlan p = Some {| routes := [] |} ->
     value p Field.view = MAP ->
     fst (updateView v p) = inl UNDEFINED_MAP_PATH /\
     mapFrame_src (snd (updateView v p)) = mapFrame_src p).
Proof.
  split.
  - intros p idx. rewrite showMap_run. split.
    + destruct (lastPlan p) as [resp|]; [|done].
      destruct idx as [i|]; simpl; [|done].
      destruct (routes resp !! i) as [info|] eqn:E; [|done].
      intros _. by exists resp, i, info.
    + intros (resp & i & info & -> & -> & E). simpl. by rewrite E.
  - intros v p E Hv. rewrite (updateView_plan _ _ _ E). simpl.
    rewrite Hv, bool_decide_eq_false_2 by done.
    rewrite showMap_run. simpl. rewrite E. simpl.
    assert (forall idx : option nat,
              idx ≫= (fun i => @nil RouteInfo !! i) = None) as Hnone
      by (by intros [i|]).
    by rewrite Hnone.
Qed.



Lemma showMap_needs_route_witness :
  let p := set_lastPlan (Some {| routes := [] |})
             (Fixture.with_field Field.view MAP Fixture.blank) in
  fst (updateView Gated p) = inl UNDEFINED_MAP_PATH /\
  mapFrame_src (snd (updateView Gated p)) = mapFrame_src p.
Proof.
  apply (proj2 showMap_needs_route Gated); reflexivity.
Defined.

End ViewClaims.

(** ** Numbers *)

Section NumberFacts.

Local Open Scope Z_scope.












End NumberFacts.

Section DigitFacts.

Import Numeral.

Local Open Scope Z_scope.















End DigitFacts.

Section FixedFacts.

Import Numeral.

Local Open Scope Z_scope.




End FixedFacts.

Section IntegerFacts.

Local Open Scope Z_scope.











End IntegerFacts.

Section ToStringFacts.

Local Open Scope Z_scope.





End ToStringFacts.

Section DivisionFacts.

Local Open Scope Z_scope.








End DivisionFacts.

Section KilometreFacts.

Local Open Scope Z_scope.


End KilometreFacts.

Section ListViewClaims.

Import Plan Script.

(** The example of the specification: two routes with days 1 and 2. *)
Example renderList_two_days (p : Page) :
  let r1 := Fixture.route (Some 1%Z) [lit "Louvre"; lit "Orsay"]
                          12345 95 (lit "day1.html") in
  let r2 := Fixture.route (Some 2%Z) [lit "Versailles"]
                          30050 41 (lit "day2.html") in
  list_innerHTML (snd (renderList {| routes := [r1; r2] |} p)) =
    NL3 ++ lit "<h2>Day 1</h2>" ++
    NL3 ++ lit "<ol><li>Louvre</li><li>Orsay</li></ol>" ++
    NL3 ++ lit "<p>12.3 km | 95 min</p>" ++ NL2 ++
    NL3 ++ lit "<h2>Day 2</h2>" ++
    NL3 ++ lit "<ol><li>Versailles</li></ol>" ++
    NL3 ++ lit "<p>30.1 km | 41 min</p>" ++ NL2.
Proof. intros r1 r2. rewrite renderList_run. vm_compute. reflexivity. Qed.

(** A route whose day is 0: the day is falsy, so the heading is [Route],
    as for a route without day, while [some_day], which tests the day
    against [null], counts it as a day. *)
Lemma heading_day_zero_is_route :
  let info := Fixture.route (Some 0%Z) [lit "Louvre"] 12345 95 (lit "m.html") in
  day info = Some 0%Z /\
  label info = lit "Route" /\
  label info <> lit "Day 0" /\
  some_day [info] = true /\
  list_innerHTML (snd (renderList {| routes := [info] |} Fixture.blank)) =
    NL3 ++ lit "<h2>Route</h2>" ++
    NL3 ++ lit "<ol><li>Louvre</li></ol>" ++
    NL3 ++ lit "<p>12.3 km | 95 min</p>" ++ NL2.
Proof.
  intros info.
  split; [reflexivity|]. split; [reflexivity|].
  split; [intros E; vm_compute in E; discriminate E|].
  split; [reflexivity|].
  rewrite renderList_run. vm_compute. reflexivity.
Qed.




End ListViewClaims.

(** ** PersistenceBridge and ShareLinkBuilder *)

Section SearchParamsFacts.

Import SearchParams.

Lemma get_set_pair_eq (params : t) (name v : jsstring) :
  get (set_pair params name v) name = Some v.
Proof.
  induction params as [|[n w] rest IH]; simpl.
  - by rewrite bool_decide_eq_true_2.
  - case_bool_decide as E; simpl.
    + by rewrite bool_decide_eq_true_2.
    + by rewrite bool_decide_eq_false_2.
Qed.

Lemma get_remove_ne (params : t) (name other : jsstring) :
  other <> name -> get (remove params name) other = get params other.
Proof.
  intros Hne. induction params as [|[n w] rest IH]; simpl; [done|].
  case_bool_decide as E; simpl in *.
  - subst n. by rewrite bool_decide_eq_false_2 by done.
  - by rewrite IH.
Qed.

Lemma get_set_pair_ne (params : t) (name other v : jsstring) :
  other <> name -> get (set_pair params name v) other = get params other.
Proof.
  intros Hne. induction params as [|[n w] rest IH]; simpl.
  - by rewrite bool_decide_eq_false_2.
  - case_bool_decide as E; simpl.
    + subst n. rewrite bool_decide_eq_false_2 by done.
      by apply get_remove_ne.
    + by rewrite IH.
Qed.

(** Induction on strings two code units at a time, as [toUSV] reads
    them. *)
Lemma pair_induction (P : jsstring -> Prop) :
  P [] -> (forall c, P [c]) ->
  (forall c d s, P s -> P (d :: s) -> P (c :: d :: s)) ->
  forall s, P s.
Proof.
  intros H0 H1 H2 s.
  assert (P s /\ forall c, P (c :: s)) as [H _]; [|exact H].
  induction s as [|d s [IH1 IH2]]; [by split|].
  split; [apply IH2|]. intros c. by apply H2.
Qed.

Lemma toUSV_cons (a : N) (s : jsstring) :
  toUSV (a :: s) =
    if is_high a then
      match s with
      | d :: s' => if is_low d then a :: d :: toUSV s' else 65533 :: toUSV s
      | [] => [65533]
      end
    else if is_low a then 65533 :: toUSV s
    else a :: toUSV s.
Proof. by destruct s. Qed.

(** A string without unpaired surrogate survives the removal of a final
    code unit that is no surrogate. *)
Lemma toUSV_snoc (s : jsstring) (c : N) :
  is_high c = false -> is_low c = false ->
  toUSV (s ++ [c]) = s ++ [c] -> toUSV s = s.
Proof.
  intros Hh Hl. induction s as [|a|a b s IH1 IH2] using pair_induction.
  - done.
  - simpl. rewrite Hl. destruct (is_high a) eqn:Ea.
    + intros [= E _]. by rewrite E.
    + destruct (is_low a) eqn:Eb; [|done].
      intros [= E _]. by rewrite E.
  - change ((a :: b :: s) ++ [c]) with (a :: b :: (s ++ [c])).
    change ((b :: s) ++ [c]) with (b :: (s ++ [c])) in IH2.
    rewrite (toUSV_cons a (b :: s ++ [c])), (toUSV_cons a (b :: s)).
    destruct (is_high a) eqn:Ea.
    + destruct (is_low b) eqn:Eb.
      * intros [= E]. by rewrite IH1.
      * intros [= E _]. unfold is_high in Ea. lia.
    + destruct (is_low a) eqn:Eb.
      * intros [= E _]. unfold is_low in Eb. lia.
      * intros [= E]. by rewrite IH2.
Qed.

Lemma ws_not_surrogate (c : N) :
  is_ws c = true -> is_high c = false /\ is_low c = false.
Proof. unfold is_ws, is_high, is_low. lia. Qed.

Lemma toUSV_trimStart (s : jsstring) :
  toUSV s = s -> toUSV (trimStart s) = trimStart s.
Proof.
  induction s as [|c s IH]; [done|]. simpl trimStart.
  destruct (is_ws c) eqn:Ec; [|done].
  destruct (ws_not_surrogate _ Ec) as [Hh Hl].
  intros E. apply IH. simpl in E. rewrite Hh, Hl in E. congruence.
Qed.

Lemma trimEnd_snoc (s : jsstring) (c : N) :
  trimEnd (s ++ [c]) = if is_ws c then trimEnd s else s ++ [c].
Proof.
  unfold trimEnd. rewrite rev_app_distr. simpl.
  destruct (is_ws c); [done|].
  simpl. by rewrite rev_involutive.
Qed.

Lemma toUSV_trimEnd (s : jsstring) :
  toUSV s = s -> toUSV (trimEnd s) = trimEnd s.
Proof.
  induction s as [|c s IH] using rev_ind; [done|].
  rewrite trimEnd_snoc. destruct (is_ws c) eqn:Ec; [|done].
  destruct (ws_not_surrogate _ Ec) as [Hh Hl].
  intros E. apply IH. by apply (toUSV_snoc s c).
Qed.

(** Trimming keeps a string free of unpaired surrogates. *)
Lemma toUSV_trim (s : jsstring) : toUSV s = s -> toUSV (trim s) = trim s.
Proof. intros E. unfold trim. by apply toUSV_trimEnd, toUSV_trimStart. Qed.

End SearchParamsFacts.

Section BridgeFacts.

Import Script Rule.

Lemma name_inj (id id' : Field.id) : Field.name id = Field.name id' -> id = id'.
Proof. destruct id, id'; intros E; vm_compute in E; congruence. Qed.

Lemma setValue_run (params : SearchParams.t) (id : Field.id) (h : bool)
    (p : Page) :
  setValue params id h p =
    (inr (match SearchParams.get params (Field.name id) with
          | Some _ => true
          | None => h
          end),
     resolve params id p).
Proof.
  unfold setValue, resolve.
  destruct (SearchParams.get params (Field.name id)) as [v|]; [done|].
  unfold bind, gets. by destruct (localStorage p !! Field.name id).
Qed.

Lemma resolve_self (params : SearchParams.t) (id : Field.id) (p : Page) :
  value (resolve params id p) id = resolved params (localStorage p) (value p) id /\
  localStorage (resolve params id p) !! Field.name id =
    persisted params (localStorage p) id.
Proof.
  unfold resolve, resolved, persisted.
  destruct (SearchParams.get params (Field.name id)) as [v|]; simpl.
  - by rewrite fn_lookup_insert, lookup_insert_eq.
  - destruct (localStorage p !! Field.name id) as [v|] eqn:E; simpl;
      [by rewrite fn_lookup_insert|done].
Qed.

Lemma resolve_other (params : SearchParams.t) (id id' : Field.id) (p : Page) :
  id <> id' ->
  value (resolve params id' p) id = value p id /\
  localStorage (resolve params id' p) !! Field.name id =
    localStorage p !! Field.name id.
Proof.
  intros Hne. unfold resolve.
  assert (Field.name id' <> Field.name id) as Hn
    by (intros E; apply Hne; symmetry; by apply name_inj).
  destruct (SearchParams.get params (Field.name id')) as [v|]; simpl.
  - by rewrite fn_lookup_insert_ne, lookup_insert_ne.
  - destruct (localStorage p !! Field.name id') as [v|]; simpl;
      [by rewrite fn_lookup_insert_ne|done].
Qed.

Lemma resolve_all_out (params : SearchParams.t) (ids : list Field.id) :
  forall p id, id ∉ ids ->
  value (resolve_all params ids p) id = value p id /\
  localStorage (resolve_all params ids p) !! Field.name id =
    localStorage p !! Field.name id.
Proof.
  unfold resolve_all.
  induction ids as [|id' rest IH]; intros p id Hout; simpl; [done|].
  apply not_elem_of_cons in Hout as [Hne Hout].
  destruct (IH (resolve params id' p) id Hout) as [-> ->].
  by apply resolve_other.
Qed.

Lemma resolve_all_in (params : SearchParams.t) (ids : list Field.id) :
  NoDup ids -> forall p id, id ∈ ids ->
  value (resolve_all params ids p) id =
    resolved params (localStorage p) (value p) id /\
  localStorage (resolve_all params ids p) !! Field.name id =
    persisted params (localStorage p) id.
Proof.
  unfold resolve_all.
  induction 1 as [|id' rest Hnotin Hnd IH]; intros p id Hin; simpl.
  - inversion Hin.
  - apply elem_of_cons in Hin as [->|Hin].
    + destruct (resolve_all_out params rest (resolve params id' p) id' Hnotin)
        as [E1 E2]. unfold resolve_all in E1, E2. rewrite E1, E2.
      apply resolve_self.
    + assert (id <> id') as Hne by (intros ->; done).
      destruct (IH (resolve params id' p) id Hin) as [-> ->].
      unfold resolved, persisted.
      destruct (resolve_other params id id' p Hne) as [-> ->]. done.
Qed.

Lemma all_fields (id : Field.id) : id ∈ Field.all.
Proof. destruct id; unfold Field.all; set_solver. Qed.

Lemma all_fields_NoDup : NoDup Field.all.
Proof. apply (bool_decide_unpack _). by vm_compute. Qed.

Lemma resolve_frame (params : SearchParams.t) (id : Field.id) (p : Page) :
  lastPlan (resolve params id p) = lastPlan p /\
  location (resolve params id p) = location p.
Proof.
  unfold resolve. destruct (SearchParams.get _ _); [done|].
  by destruct (localStorage p !! Field.name id).
Qed.

(** [updateView] touches neither the controls nor the storage. *)
Lemma updateView_frame (v : Variant) (p : Page) :
  value (snd (updateView v p)) = value p /\
  localStorage (snd (updateView v p)) = localStorage p.
Proof.
  destruct (lastPlan p) as [resp|] eqn:E.
  - rewrite (updateView_plan _ _ _ E). simpl.
    case_bool_decide; [by rewrite renderList_run|].
    rewrite showMap_run. simpl. rewrite E. by destruct (_ ≫= _).
  - rewrite (updateView_no_plan _ _ E). by destruct v.
Qed.

(** The controls and the storage after [restoreForm] are those after the
    six calls of [setValue]. *)
Lemma restoreForm_run (p : Page) :
  let q := snd (restoreForm p) in
  let r := resolve_all (search (location p)) Field.all p in
  value q = value r /\ localStorage q = localStorage r.
Proof.
  intros q r. subst q r.
  generalize (eq_refl (restoreForm p)).
  generalize (restoreForm p) at 1 3 4. intros R E.
  unfold restoreForm in E.
  unfold bind at 1 in E. unfold gets at 1 in E.
  set (params := search (location p)) in *.
  repeat (unfold bind at 1 in E; rewrite setValue_run in E).
  unfold bind at 1 in E. unfold gets at 1 in E.
  unfold bind at 1 in E. unfold modify at 1 in E.
  unfold bind at 1 in E.
  match type of E with
  | context [updateView Gated ?s] =>
      pose proof (updateView_frame Gated s) as [E1 E2];
      destruct (updateView Gated s) as [[e|[]] q']
  end; simpl in E1, E2.
  - subst R. simpl. by rewrite E1, E2.
  - match type of E with context [if ?b then _ else _] => destruct b end;
      subst R; simpl; by rewrite E1, E2.
Qed.

(** On page load no plan is held, so in the script that has
    [restoreForm] the final [updateView] raises: the controls and the
    storage are restored, but the query is not stripped from the URL. *)
Lemma restoreForm_on_load_raises (p : Page) :
  lastPlan p = None ->
  fst (restoreForm p) = inl NULL_ROUTES /\
  location (snd (restoreForm p)) = location p.
Proof.
  intros Hnone.
  generalize (eq_refl (restoreForm p)).
  generalize (restoreForm p) at 1 3 4. intros R E.
  unfold restoreForm in E.
  unfold bind at 1 in E. unfold gets at 1 in E.
  set (params := search (location p)) in *.
  repeat (unfold bind at 1 in E; rewrite setValue_run in E).
  unfold bind at 1 in E. unfold gets at 1 in E.
  unfold bind at 1 in E. unfold modify at 1 in E.
  unfold bind at 1 in E.
  rewrite updateView_no_plan in E
    by (cbn [lastPlan set_body_dark];
        by rewrite !(proj1 (resolve_frame _ _ _))).
  subst R. cbn [fst snd location set_body_dark].
  by rewrite !(proj2 (resolve_frame _ _ _)).
Qed.

End BridgeFacts.

Section BridgeClaims.

Import Script Rule.

(** The controls and the storage after [restoreForm], by the rule. *)
Lemma restoreForm_values (p : Page) (id : Field.id) :
  value (snd (restoreForm p)) id =
    resolved (search (location p)) (localStorage p) (value p) id /\
  localStorage (snd (restoreForm p)) !! Field.name id =
    persisted (search (location p)) (localStorage p) id.
Proof.
  destruct (restoreForm_run p) as [-> ->].
  apply resolve_all_in; [apply all_fields_NoDup|apply all_fields].
Qed.

(** C6: after [restoreForm], each of the six controls holds the value of
    its query parameter when there is one, and that value is written to
    storage; else the stored value when there is one; else its markup
    value, with nothing stored. *)
Theorem restoreForm_precedence (p : Page) (id : Field.id) :
  let q := snd (restoreForm p) in
  match SearchParams.get (search (location p)) (Field.name id) with
  | Some v => value q id = v /\ localStorage q !! Field.name id = Some v
  | None =>
      match localStorage p !! Field.name id with
      | Some v => value q id = v /\ localStorage q !! Field.name id = Some v
      | None => value q id = value p id /\
                localStorage q !! Field.name id = None
      end
  end.
Proof.
  intros q. subst q.
  destruct (restoreForm_values p id) as [-> ->].
  unfold resolved, persisted.
  destruct (SearchParams.get _ _); [done|].
  by destruct (localStorage p !! Field.name id).
Qed.

Ltac names_differ :=
  let E := fresh in intros E; vm_compute in E; discriminate E.

(** The link built by [share] carries, under the name of each control,
    the shared value as a scalar-value string. *)
Lemma share_url_get (p : Page) (id : Field.id) :
  SearchParams.get (search (share_url p)) (Field.name id) =
    Some (SearchParams.toUSV (shared p id)).
Proof.
  unfold share_url, SearchParams.set. cbn [search].
  change (SearchParams.toUSV (lit "home")) with (Field.name Field.home).
  change (SearchParams.toUSV (lit "places")) with (Field.name Field.places).
  change (SearchParams.toUSV (lit "mandatory"))
    with (Field.name Field.mandatory).
  change (SearchParams.toUSV (lit "altAddresses"))
    with (Field.name Field.altAddresses).
  change (SearchParams.toUSV (lit "mode")) with (Field.name Field.mode).
  change (SearchParams.toUSV (lit "view")) with (Field.name Field.view).
  destruct id;
    repeat (rewrite get_set_pair_ne by names_differ);
    apply get_set_pair_eq.
Qed.

(** Opening a shared link gives each control the shared value as a
    scalar-value string, and stores it. *)
Lemma opened_values (p fresh : Page) (id : Field.id) :
  value (opened p fresh) id = SearchParams.toUSV (shared p id) /\
  localStorage (opened p fresh) !! Field.name id =
    Some (SearchParams.toUSV (shared p id)).
Proof.
  unfold opened.
  destruct (restoreForm_values
              (set_lastPlan None (set_location (share_url p) fresh)) id)
    as [-> ->].
  unfold resolved, persisted. cbn [location set_lastPlan set_location].
  by rewrite share_url_get.
Qed.

End BridgeClaims.

Section ShareClaims.

Import Script Rule.

(** C2, as stated, fails: [share] trims the home value, so a home of
    [" x"] comes back as ["x"]; and the query parameters are scalar-value
    strings, so an unpaired surrogate comes back as U+FFFD. *)
Lemma share_round_trip_not_identical :
  let p := Fixture.with_field Field.home (lit " x")
             (Fixture.with_field Field.places [55296] Fixture.blank) in
  ~ identical_round_trip p Fixture.blank /\
  value (opened p Fixture.blank) Field.home = lit "x" /\
  value (opened p Fixture.blank) Field.places = [65533].
Proof.
  intros p. split; [|split; vm_compute; reflexivity].
  intros H. destruct (H Field.home) as [E _].
  vm_compute in E. discriminate E.
Qed.

(** C2 (amended): for every assignment of the six controls without
    unpaired surrogates, building the link with [share] and opening it on
    a fresh page gives the home control its trimmed value and each of the
    five other controls its identical value, and stores each of the six
    values so obtained. *)
Theorem share_round_trip (p fresh : Page) :
  (forall id, SearchParams.toUSV (value p id) = value p id) ->
  forall id,
    value (opened p fresh) id = shared p id /\
    localStorage (opened p fresh) !! Field.name id = Some (shared p id).
Proof.
  intros Hwf id.
  assert (SearchParams.toUSV (shared p id) = shared p id) as E
    by (destruct id; simpl; [apply toUSV_trim|..]; apply Hwf).
  rewrite <- E. apply opened_values.
Qed.

Lemma share_round_trip_witness :
  let p := Fixture.with_field Field.home (lit " 1 rue de Rivoli ")
             (Fixture.with_field Field.places (lit "Louvre" ++ [LF] ++ lit "Orsay")
                (Fixture.with_field Field.view (lit "map") Fixture.blank)) in
  value (opened p Fixture.blank) Field.home = lit "1 rue de Rivoli" /\
  localStorage (opened p Fixture.blank) !! lit "places" =
    Some (lit "Louvre" ++ [LF] ++ lit "Orsay").
Proof.
  intros p.
  assert (forall id, SearchParams.toUSV (value p id) = value p id) as Hwf
    by (intros []; vm_compute; reflexivity).
  split.
  - apply (proj1 (share_round_trip p Fixture.blank Hwf Field.home)).
  - apply (proj2 (share_round_trip p Fixture.blank Hwf Field.places)).
Defined.

End ShareClaims.

(** ** PlanClient *)

Section PlanClaims.

Import Script Rule.

(** C4, as stated, fails: the alert is not the body text alone; it is
    prefixed. *)
Lemma plan_alert_is_prefixed :
  let fetch := fun _ => HttpFailure (lit "bad address") in
  ~ alert_is_body Gated fetch (lit "bad address") Fixture.blank /\
  alerts (snd (plan Gated fetch Fixture.blank)) =
    [lit "Planning failed: bad address"].
Proof.
  intros fetch. split; [|vm_compute; reflexivity].
  unfold alert_is_body. intros E. vm_compute in E. discriminate E.
Qed.

(** [plan] when the call answers with a non-success status. *)
Lemma plan_http_failure_run (v : Variant)
    (fetch : Request.Payload -> FetchOutcome) (p : Page)
    (payload : Request.Payload) (M : jsstring) :
  build_payload p = inr payload ->
  fetch payload = HttpFailure M ->
  plan v fetch p =
    alert (lit "Planning failed: " ++ M)
          (set_mapFrame_src [] (set_list_innerHTML [] p)).
Proof.
  intros Hb Hf.
  unfold plan, bind, modify, try_catch, lift.
  change (build_payload (set_mapFrame_src [] (set_list_innerHTML [] p)))
    with (build_payload p).
  rewrite Hb. unfold ret at 1. by rewrite Hf.
Qed.

(** C4 (amended): when the request is built and the call answers with a
    non-success status and body text [M], [plan] returns normally, shows
    one alert whose text is ["Planning failed: "] followed by [M], and
    leaves [lastPlan] as it was; the list region and the map frame stay
    cleared, and the controls are untouched. *)
Theorem plan_http_failure (v : Variant)
    (fetch : Request.Payload -> FetchOutcome) (p : Page)
    (payload : Request.Payload) (M : jsstring) :
  build_payload p = inr payload ->
  fetch payload = HttpFailure M ->
  let r := plan v fetch p in
  fst r = inr tt /\
  alerts (snd r) = alerts p ++ [lit "Planning failed: " ++ M] /\
  lastPlan (snd r) = lastPlan p /\
  list_innerHTML (snd r) = [] /\
  mapFrame_src (snd r) = [] /\
  value (snd r) = value p.
Proof.
  intros Hb Hf r. subst r.
  rewrite (plan_http_failure_run v fetch p payload M Hb Hf).
  repeat split.
Qed.

Lemma plan_http_failure_witness :
  let p := set_lastPlan
             (Some {| Plan.routes :=
                        [Fixture.route (Some 1%Z) [lit "Louvre"] 12345 95
                                       (lit "day1.html")] |})
             (Fixture.with_field Field.places (lit "Louvre") Fixture.blank) in
  let r := plan Ungated (fun _ => HttpFailure (lit "bad address")) p in
  alerts (snd r) = [lit "Planning failed: bad address"] /\
  lastPlan (snd r) = lastPlan p.
Proof.
  intros p r.
  assert (exists payload, build_payload p = inr payload) as [payload Hb]
    by (vm_compute; eauto).
  destruct (plan_http_failure Ungated (fun _ => HttpFailure (lit "bad address"))
              p payload (lit "bad address") Hb eq_refl)
    as (_ & H1 & H2 & _).
  split; [exact H1|exact H2].
Defined.

End PlanClaims.

(** * Further properties *)

(** ** Line splitting *)

Section LineFacts.

Lemma elem_of_trimStart (x : N) (s : jsstring) : x ∈ trimStart s -> x ∈ s.
Proof.
  induction s as [|c s IH]; simpl; [done|].
  destruct (is_ws c); [|done]. intros H. right. by apply IH.
Qed.

Lemma elem_of_trimEnd (x : N) (s : jsstring) : x ∈ trimEnd s -> x ∈ s.
Proof.
  unfold trimEnd. rewrite list_elem_of_In, <- in_rev, <- list_elem_of_In.
  intros H. apply elem_of_trimStart in H.
  by rewrite list_elem_of_In, <- in_rev, <- list_elem_of_In in H.
Qed.

Lemma elem_of_trim (x : N) (s : jsstring) : x ∈ trim s -> x ∈ s.
Proof. intros H. by apply elem_of_trimStart, elem_of_trimEnd. Qed.

Lemma Forall_cons_head (P : jsstring -> Prop) (c : N) (segs : list jsstring) :
  P [c] -> (forall h, P h -> P (c :: h)) ->
  Forall P segs -> Forall P (cons_head c segs).
Proof.
  intros H1 H2 H. destruct H as [|h t Hh Ht]; simpl.
  - by constructor.
  - constructor; [by apply H2|done].
Qed.

Lemma notin_single (x c : N) : c <> x -> x ∉ [c].
Proof. intros H. apply not_elem_of_cons. split; [done|apply not_elem_of_nil]. Qed.

Lemma notin_cons (x c : N) (h : jsstring) : c <> x -> x ∉ h -> x ∉ c :: h.
Proof. intros H1 H2. apply not_elem_of_cons. by split. Qed.

(** No segment of a split holds the separator. *)
Lemma split_segments (sep : N) (s : jsstring) :
  Forall (fun seg => sep ∉ seg) (split sep s).
Proof.
  induction s as [|c s IH]; simpl.
  - constructor; [apply not_elem_of_nil|constructor].
  - destruct (N.eqb_spec c sep) as [->|Hne].
    + constructor; [apply not_elem_of_nil|done].
    + apply Forall_cons_head; [by apply notin_single| |done].
      intros h Hh. by apply notin_cons.
Qed.

Lemma split_lines_segments (s : jsstring) :
  Forall (fun seg => LF ∉ seg) (split_lines s).
Proof.
  assert (forall c segs, c <> LF -> Forall (fun seg => LF ∉ seg) segs ->
            Forall (fun seg => LF ∉ seg) (cons_head c segs)) as Hcons.
  { intros c segs Hc. apply Forall_cons_head; [by apply notin_single|].
    intros h Hh. by apply notin_cons. }
  induction s as [|c s IH]; simpl.
  - constructor; [apply not_elem_of_nil|constructor].
  - destruct (N.eqb_spec c LF) as [->|Hne].
    + constructor; [apply not_elem_of_nil|done].
    + destruct (c =? CR); [|by apply Hcons].
      destruct s as [|d s]; [by apply Hcons|].
      destruct (N.eqb_spec d LF) as [->|Hd]; [|by apply Hcons].
      simpl in IH. constructor; [apply not_elem_of_nil|]. by inversion IH.
Qed.

Lemma surviving_lines_elem (value l : jsstring) :
  l ∈ surviving_lines value <->
  l <> [] /\ exists seg, seg ∈ split_lines value /\ l = trim seg.
Proof.
  unfold surviving_lines.
  rewrite list_elem_of_In, filter_In, in_map_iff. split.
  - intros [(seg & <- & Hin) Ht]. split; [by destruct (trim seg)|].
    exists seg. by rewrite list_elem_of_In.
  - intros [Hne (seg & Hin & ->)]. split; [|by destruct (trim seg)].
    exists seg. by rewrite <- list_elem_of_In.
Qed.

Lemma trimStart_snoc_ws (s : jsstring) (c : N) :
  is_ws c = true ->
  trimStart (s ++ [c]) =
    match trimStart s with [] => [] | t => t ++ [c] end.
Proof.
  intros H. induction s as [|d s IH]; simpl; [by rewrite H|].
  by destruct (is_ws d).
Qed.

(** A trailing white-space character does not change the trimmed string. *)
Lemma trim_snoc_ws (s : jsstring) (c : N) :
  is_ws c = true -> trim (s ++ [c]) = trim s.
Proof.
  intros H. unfold trim. rewrite (trimStart_snoc_ws _ _ H).
  destruct (trimStart s) as [|d t]; [done|].
  by rewrite trimEnd_snoc, H.
Qed.

(** The segments cut by [/\r?\n/] are those cut by the line feed alone,
    less a carriage return at the end of some. *)
Lemma split_lines_split_LF (s : jsstring) :
  Forall2 (fun a b => b = a \/ b = a ++ [CR]) (split_lines s) (split LF s).
Proof.
  assert (forall c L1 L2,
            Forall2 (fun a b => b = a \/ b = a ++ [CR]) L1 L2 ->
            Forall2 (fun a b => b = a \/ b = a ++ [CR])
                    (cons_head c L1) (cons_head c L2)) as Hcons.
  { intros c L1 L2 [|a b t1 t2 [->| ->] Ht]; simpl; constructor; auto. }
  induction s as [|c s IH]; simpl.
  - constructor; [by left|constructor].
  - destruct (N.eqb_spec c LF) as [->|Hne]; [constructor; auto|].
    destruct (N.eqb_spec c CR) as [->|Hcr]; [|by apply Hcons].
    destruct s as [|d s]; [by apply Hcons|].
    destruct (N.eqb_spec d LF) as [->|Hd]; [|by apply Hcons].
    simpl in IH |- *. inversion IH; subst.
    constructor; [by right|done].
Qed.

Lemma surviving_lines_split_LF (value : jsstring) :
  surviving_lines value =
    List.filter truthy (List.map trim (split LF value)).
Proof.
  unfold surviving_lines. f_equal.
  induction (split_lines_split_LF value) as [|a b t1 t2 [->| ->] _ IH];
    simpl; [done| |]; rewrite IH; [done|].
  by rewrite trim_snoc_ws.
Qed.

Lemma split_app_sep (sep : N) (x t : jsstring) :
  sep ∉ x -> split sep (x ++ sep :: t) = x :: split sep t.
Proof.
  induction x as [|c x IH]; simpl; intros H.
  - by rewrite N.eqb_refl.
  - apply not_elem_of_cons in H as [Hc Hx].
    destruct (N.eqb_spec c sep) as [->|_]; [done|].
    by rewrite (IH Hx).
Qed.

Lemma split_join (sep : N) (segs : list jsstring) :
  segs <> [] -> Forall (fun seg => sep ∉ seg) segs ->
  split sep (join [sep] segs) = segs.
Proof.
  intros Hne H. induction H as [|x rest Hx Hrest IH]; [done|].
  destruct rest as [|y rest].
  - simpl. by apply split_no_separator.
  - change (join [sep] (x :: y :: rest))
      with (x ++ sep :: join [sep] (y :: rest)).
    rewrite (split_app_sep _ _ _ Hx), IH; done.
Qed.

End LineFacts.

Section LineProperties.

(** X1: every line kept from a multi-line field is non-empty, is trimmed,
    starts with a character that is not white space, and holds no line
    feed. *)
Theorem surviving_lines_clean (value l : jsstring) :
  l ∈ surviving_lines value ->
  l <> [] /\ trim l = l /\ (LF ∉ l) /\
  (exists c t, l = c :: t /\ is_ws c = false).
Proof.
  intros H. pose proof (surviving_line_head _ _ H) as Hhead.
  apply surviving_lines_elem in H as [Hne (seg & Hin & ->)].
  split; [done|]. split; [apply trim_idem|]. split; [|done].
  intros Hlf. apply elem_of_trim in Hlf.
  pose proof (split_lines_segments value) as Hall.
  rewrite Forall_forall in Hall. by apply (Hall seg).
Qed.

Lemma surviving_lines_clean_witness :
  lit "Louvre" <> [] /\ trim (lit "Louvre") = lit "Louvre" /\
  (LF ∉ lit "Louvre") /\
  (exists c t, lit "Louvre" = c :: t /\ is_ws c = false).
Proof.
  apply (surviving_lines_clean
           (lit "  Louvre " ++ [CR; LF; LF] ++ lit "Orsay") (lit "Louvre")).
  vm_compute. left.
Defined.

(** X2: the carriage return of a CRLF line end makes no difference: the
    lines kept are those obtained by cutting at line feeds only. *)
Theorem crlf_cut_like_lf (value : jsstring) :
  surviving_lines value =
    List.filter truthy (List.map trim (split LF value)).
Proof.
  unfold surviving_lines. f_equal.
  pose proof (split_lines_split_LF value) as H.
  induction H as [|a b t1 t2 Hab _ IH]; [done|].
  simpl. rewrite IH. f_equal.
  destruct Hab as [->| ->]; [done|].
  symmetry. by apply trim_snoc_ws.
Qed.

(** Clean lines joined by line feeds are read back as themselves. *)
Lemma surviving_lines_join_clean (lines : list jsstring) :
  (forall l, l ∈ lines -> l <> [] /\ trim l = l /\ (LF ∉ l)) ->
  surviving_lines (join [LF] lines) = lines.
Proof.
  intros H. rewrite surviving_lines_split_LF.
  destruct lines as [|x rest]; [done|].
  rewrite split_join; [|done|].
  - induction (x :: rest) as [|l ls IH]; [done|]. simpl.
    destruct (H l) as (Hne & -> & _); [by left|].
    destruct l; [done|]. simpl. f_equal.
    apply IH. intros l' Hin. apply H. by right.
  - apply Forall_forall. intros l Hin. by apply H.
Qed.

(** X3: a list of clean lines (non-empty, trimmed, free of line feeds)
    joined by line feeds is read back as itself; so the reading is
    idempotent: the lines kept from any text, joined again, give the same
    lines. *)
Theorem surviving_lines_round_trip :
  (forall lines : list jsstring,
     (forall l, l ∈ lines -> l <> [] /\ trim l = l /\ (LF ∉ l)) ->
     surviving_lines (join [LF] lines) = lines) /\
  (forall value : jsstring,
     surviving_lines (join [LF] (surviving_lines value)) =
       surviving_lines value).
Proof.
  split; [exact surviving_lines_join_clean|].
  intros value. apply surviving_lines_join_clean.
  intros l Hin. pose proof (surviving_lines_elem value l) as [Hl _].
  destruct (Hl Hin) as [Hne (seg & Hseg & ->)].
  split; [done|]. split; [apply trim_idem|].
  intros Hlf. apply elem_of_trim in Hlf.
  pose proof (split_lines_segments value) as Hall.
  rewrite Forall_forall in Hall. by apply (Hall seg).
Qed.

Lemma surviving_lines_round_trip_witness :
  surviving_lines (join [LF] [lit "Louvre"; lit "Musee d'Orsay"]) =
    [lit "Louvre"; lit "Musee d'Orsay"].
Proof.
  apply (proj1 surviving_lines_round_trip [lit "Louvre"; lit "Musee d'Orsay"]).
  intros l Hin.
  assert (l = lit "Louvre" \/ l = lit "Musee d'Orsay") as [-> | ->].
  { apply elem_of_cons in Hin as [->|Hin]; [by left|].
    apply elem_of_cons in Hin as [->|Hin]; [by right|]. inversion Hin. }
  - split; [discriminate|]. split; [reflexivity|].
    apply (bool_decide_unpack _). exact I.
  - split; [discriminate|]. split; [reflexivity|].
    apply (bool_decide_unpack _). exact I.
Defined.

End LineProperties.


(** ** The parsers, further *)

Section ParserFacts.

Import Parser Reference Outcome.

Lemma push_places_inherited (m : gmap jsstring (list jsstring)) day toks :
  inherited day = true -> m !! day = None ->
  List.filter truthy (List.map trim toks) <> [] ->
  push_places m day toks = inl NO_PUSH.
Proof.
  intros Hi Hm. induction toks as [|place rest IH]; simpl; [done|].
  destruct (truthy (trim place)); [|exact IH].
  intros _. unfold push_place. by rewrite Hm, Hi.
Qed.

Lemma add_tokens_own_keys (m : gmap jsstring (list jsstring)) day toks :
  own_keys m -> toks = [] \/ inherited day = false ->
  own_keys (add_tokens m day toks).
Proof.
  intros Hm H k. unfold add_tokens. destruct toks as [|t ts]; [apply Hm|].
  destruct H as [|H]; [done|].
  destruct (decide (k = day)) as [->|Hne]; [done|].
  rewrite lookup_insert_ne by done. apply Hm.
Qed.

Lemma entry_safe_cases (day : jsstring) (toks : list jsstring) :
  negb (inherited day) || negb (bool_decide (toks ≠ [])) = true <->
  toks = [] \/ inherited day = false.
Proof.
  rewrite orb_true_iff, !negb_true_iff, bool_decide_eq_false. split.
  - intros [H|H]; [by right|left]. destruct toks; [done|]. by destruct H.
  - intros [->|H]; [right; by intros H|by left].
Qed.

Lemma mandatory_line_raise (m : gmap jsstring (list jsstring)) line day toks :
  own_keys m -> entry_two line = Some (day, toks) ->
  inherited day = true -> toks <> [] ->
  mandatory_line m line = inl NO_PUSH.
Proof.
  intros Hm E Hi Ht. unfold entry_two in E. unfold mandatory_line.
  destruct (day_places line) as [d [pp|]]; [|done].
  destruct (truthy d) eqn:Ed, (truthy pp) eqn:Ep; simpl in *;
    rewrite ?Ep; simpl; try done.
  injection E as -> <-.
  apply push_places_inherited; [done| |done].
  destruct (m !! day) eqn:Em; [|done].
  assert (inherited day = false) by (apply Hm; eauto). congruence.
Qed.

(** A contributing line whose day is an inherited name makes the loop
    raise, whatever came before. *)
Lemma mandatory_lines_raise lines :
  forall m, own_keys m ->
  forallb (fun e => negb (inherited e.1) || negb (bool_decide (e.2 ≠ [])))
          (omap entry_two lines) = false ->
  mandatory_lines m lines = inl NO_PUSH.
Proof.
  induction lines as [|line rest IH]; intros m Hm H; simpl in *; [done|].
  pose proof (mandatory_line_entry m line) as Hl.
  destruct (entry_two line) as [[day toks]|] eqn:E.
  - simpl in H.
    destruct (negb (inherited day) || negb (bool_decide (toks ≠ []))) eqn:Es.
    + apply entry_safe_cases in Es. rewrite (Hl Es).
      apply IH; [by apply add_tokens_own_keys|done].
    + apply orb_false_iff in Es as [H1 H2].
      apply negb_false_iff in H1.
      apply negb_false_iff, bool_decide_eq_true in H2.
      by rewrite (mandatory_line_raise m line day toks).
  - rewrite Hl. by apply IH.
Qed.

Lemma own_keys_empty : own_keys ∅.
Proof. intros k [x Hx]. by rewrite lookup_empty in Hx. Qed.

(** The elements of a segment are elements of the string split. *)
Lemma split_segments_sub (sep : N) (s : jsstring) :
  Forall (fun seg => forall x, x ∈ seg -> x ∈ s) (split sep s).
Proof.
  induction s as [|c s IH]; simpl.
  - constructor; [done|constructor].
  - destruct (c =? sep).
    + constructor; [intros x Hx; inversion Hx|].
      eapply Forall_impl; [exact IH|]. intros seg H x Hx. right. by apply H.
    + destruct IH as [|h t Hh Ht]; simpl.
      * constructor; [|constructor]. intros x Hx.
        apply elem_of_cons in Hx as [->|Hx]; [by left|inversion Hx].
      * constructor.
        -- intros x Hx. apply elem_of_cons in Hx as [->|Hx]; [by left|].
           right. by apply Hh.
        -- eapply Forall_impl; [exact Ht|].
           intros seg H x Hx. right. by apply H.
Qed.

(** What an entry of a line says about the line. *)
Lemma entry_two_inv line day toks :
  entry_two line = Some (day, toks) ->
  day <> [] /\ (PIPE ∉ day) /\
  forall place, place ∈ toks ->
    place <> [] /\ trim place = place /\ (COMMA ∉ place) /\ (PIPE ∉ place).
Proof.
  unfold entry_two, day_places.
  pose proof (split_segments PIPE line) as Hseg.
  destruct (split PIPE line) as [|d [|pp rest]]; simpl; [done|done|].
  destruct (truthy d) eqn:Ed, (truthy pp) eqn:Ep; simpl; try done.
  intros [= <- <-].
  apply Forall_cons in Hseg as [Hd Hseg].
  apply Forall_cons in Hseg as [Hpp _].
  split; [by destruct d|]. split; [done|].
  intros place. unfold tokens.
  rewrite list_elem_of_In, filter_In, in_map_iff.
  intros [(seg & <- & Hin) Ht]. apply list_elem_of_In in Hin.
  split; [by destruct (trim seg)|]. split; [apply trim_idem|].
  pose proof (split_segments COMMA pp) as Hc.
  pose proof (split_segments_sub COMMA pp) as Hs.
  rewrite Forall_forall in Hc, Hs.
  split; intros Hx; apply elem_of_trim in Hx.
  - by apply (Hc seg).
  - by apply Hpp, (Hs seg).
Qed.

Lemma grouped_Some entries day l :
  grouped entries day = Some l ->
  l <> [] /\
  forall place, place ∈ l ->
    exists toks, (day, toks) ∈ entries /\ place ∈ toks.
Proof.
  unfold grouped.
  destruct (concat _) as [|x xs] eqn:E; [done|]. intros [= <-].
  split; [done|]. rewrite <- E. clear E. intros place.
  induction entries as [|[d toks] rest IH]; simpl; [intros H; inversion H|].
  case_bool_decide as Ed; simpl in *.
  - subst d. rewrite elem_of_app. intros [H|H].
    + exists toks. split; [by left|done].
    + destruct (IH H) as (t & Hin & Hp). exists t. split; [by right|done].
  - intros H. destruct (IH H) as (t & Hin & Hp).
    exists t. split; [by right|done].
Qed.

End ParserFacts.

Section ParserProperties.

Import Parser Reference Outcome.

(** X4: the mandatory parse has two outcomes.  When no contributing line
    names a day inherited from [Object.prototype] it returns the grouped
    entries; otherwise it raises the [TypeError] of the failed [push],
    whatever the other lines are. *)
Theorem mandatory_by_day_outcome (value : jsstring) :
  mandatory_by_day value =
    if own_days value
    then inr (add_entries ∅ (omap entry_two (surviving_lines value)))
    else inl NO_PUSH.
Proof.
  unfold mandatory_by_day. destruct (own_days value) eqn:E.
  - by apply mandatory_lines_entries.
  - apply mandatory_lines_raise; [apply own_keys_empty|exact E].
Qed.

(** X5: in the map the mandatory parse returns, every key is non-empty,
    free of [|] and not an inherited name, every list is non-empty, and
    every place is non-empty, trimmed and free of [,] and [|]. *)
Theorem mandatory_by_day_wellformed (value : jsstring)
    (m : gmap jsstring (list jsstring)) (day : jsstring)
    (l : list jsstring) :
  mandatory_by_day value = inr m -> m !! day = Some l ->
  (day <> [] /\ (PIPE ∉ day) /\ inherited day = false) /\
  l <> [] /\
  forall place, place ∈ l ->
    place <> [] /\ trim place = place /\ (COMMA ∉ place) /\ (PIPE ∉ place).
Proof.
  unfold mandatory_by_day. intros Hm Hl.
  destruct (own_days value) eqn:Hown;
    [|by rewrite mandatory_lines_raise in Hm
        by (apply own_keys_empty || exact Hown)].
  rewrite (mandatory_lines_entries _ _ Hown) in Hm. injection Hm as <-.
  rewrite lookup_add_entries, lookup_empty in Hl.
  set (entries := omap entry_two (surviving_lines value)) in *.
  destruct (grouped entries day) as [l'|] eqn:Eg; [|done].
  simpl in Hl. injection Hl as <-.
  destruct (grouped_Some _ _ _ Eg) as [Hne Hplaces].
  assert (forall toks, (day, toks) ∈ entries ->
            exists line, entry_two line = Some (day, toks)) as Hentry.
  { intros toks Hin. apply list_elem_of_omap in Hin as (line & _ & E).
    by exists line. }
  split; [|split; [done|]].
  - destruct l' as [|place rest]; [done|].
    destruct (Hplaces place) as (toks & Hin & Hp); [by left|].
    destruct (Hentry toks Hin) as (line & E).
    destruct (entry_two_inv _ _ _ E) as (H1 & H2 & _).
    split; [done|]. split; [done|].
    unfold own_days in Hown. rewrite forallb_forall in Hown.
    specialize (Hown (day, toks)). simpl in Hown.
    apply entry_safe_cases in Hown as [->|H];
      [inversion Hp|done|by apply list_elem_of_In].
  - intros place Hp. destruct (Hplaces place Hp) as (toks & Hin & Hpt).
    destruct (Hentry toks Hin) as (line & E).
    destruct (entry_two_inv _ _ _ E) as (_ & _ & H). by apply H.
Qed.

Lemma mandatory_by_day_wellformed_witness :
  (lit "1" <> [] /\ (PIPE ∉ lit "1") /\ inherited (lit "1") = false) /\
  [lit "Louvre"; lit "Orsay"] <> [] /\
  forall place, place ∈ [lit "Louvre"; lit "Orsay"] ->
    place <> [] /\ trim place = place /\ (COMMA ∉ place) /\ (PIPE ∉ place).
Proof.
  apply (mandatory_by_day_wellformed
           (lit "1| Louvre ,,Orsay|x" ++ [LF] ++ lit "toString|")
           {[ lit "1" := [lit "Louvre"; lit "Orsay"] ]} (lit "1")).
  - vm_compute. reflexivity.
  - vm_compute. reflexivity.
Defined.

End ParserProperties.

Section AltAddressProperties.

Import Parser Reference Outcome.

Lemma alt_entry_inv line k r :
  alt_entry line = Some (k, r) -> (PIPE ∉ k) /\ trim r = r.
Proof.
  unfold alt_entry. pose proof (split_segments PIPE line) as Hseg.
  destruct (split PIPE line) as [|original replacement]; [done|].
  destruct (truthy original); [|done]. intros [= <- <-].
  apply Forall_cons in Hseg as [Ho _].
  split; [|apply trim_idem]. intros H. by apply elem_of_trim in H.
Qed.

Lemma alt_lines_size lines :
  forall m : gmap jsstring jsstring,
  (size (alt_lines m lines) <= size m + length lines)%nat.
Proof.
  unfold alt_lines.
  induction lines as [|line rest IH]; intros m; simpl; [lia|].
  etrans; [apply IH|]. rewrite alt_line_entry.
  destruct (alt_entry line) as [[k r]|]; [|lia].
  unfold assign. case_bool_decide; [lia|].
  rewrite map_size_insert. destruct (m !! k); simpl; lia.
Qed.

(** X6: in the alt-address map of any text, no key is [__proto__] or
    holds a [|], every replacement is trimmed, and there are no more
    entries than lines kept. *)
Theorem alt_addresses_wellformed (value : jsstring) :
  (forall k r, alt_addresses value !! k = Some r ->
     k <> PROTO /\ (PIPE ∉ k) /\ trim r = r) /\
  (size (alt_addresses value) <= length (surviving_lines value))%nat.
Proof.
  split.
  - unfold alt_addresses, alt_lines.
    assert (forall lines (m : gmap jsstring jsstring),
              (forall k r, m !! k = Some r ->
                 k <> PROTO /\ (PIPE ∉ k) /\ trim r = r) ->
              forall k r, fold_left alt_line lines m !! k = Some r ->
                 k <> PROTO /\ (PIPE ∉ k) /\ trim r = r) as Hinv.
    { induction lines as [|line rest IH]; intros m Hm; simpl; [done|].
      apply IH. rewrite alt_line_entry.
      destruct (alt_entry line) as [[k' r']|] eqn:E; [|done].
      unfold assign. case_bool_decide as Ep; [done|].
      intros k r. destruct (decide (k = k')) as [->|Hne].
      - rewrite lookup_insert_eq. intros [= <-].
        split; [done|]. by apply (alt_entry_inv line).
      - rewrite lookup_insert_ne by done. apply Hm. }
    apply Hinv. intros k r. by rewrite lookup_empty.
  - unfold alt_addresses.
    etrans; [apply alt_lines_size|]. by rewrite map_size_empty.
Qed.

Lemma alt_addresses_wellformed_witness :
  lit "Louvre" <> PROTO /\ (PIPE ∉ lit "Louvre") /\
  trim (lit "Rue de Rivoli|Paris") = lit "Rue de Rivoli|Paris".
Proof.
  apply (proj1 (alt_addresses_wellformed
                  (lit "Louvre | Rue de Rivoli|Paris " ++ [LF] ++
                   lit "__proto__|x"))
               (lit "Louvre") (lit "Rue de Rivoli|Paris")).
  vm_compute. reflexivity.
Defined.

Lemma split_lines_no_LF (s : jsstring) : LF ∉ s -> split_lines s = [s].
Proof.
  induction s as [|c s IH]; [done|]. intros H.
  apply not_elem_of_cons in H as [Hc Hs]. specialize (IH Hs). simpl.
  destruct (N.eqb_spec c LF) as [->|_]; [done|].
  destruct (c =? CR); [|by rewrite IH].
  destruct s as [|d s]; [done|].
  apply not_elem_of_cons in Hs as [Hd _].
  destruct (N.eqb_spec d LF) as [->|_]; [done|]. by rewrite IH.
Qed.

(** X7: a trimmed, non-empty one-line text without [|] registers in the
    alt-address map with an empty replacement (unless it is [__proto__],
    which registers nothing), and contributes nothing to the mandatory
    map. *)
Theorem line_without_separator (line : jsstring) :
  line <> [] -> trim line = line -> LF ∉ line -> PIPE ∉ line ->
  alt_addresses line =
    (if bool_decide (line = PROTO) then ∅ else {[ line := [] ]}) /\
  mandatory_by_day line = inr ∅.
Proof.
  intros Hne Ht Hlf Hp.
  assert (surviving_lines line = [line]) as Hs.
  { unfold surviving_lines. rewrite (split_lines_no_LF _ Hlf). simpl.
    rewrite Ht. by destruct line. }
  unfold alt_addresses, mandatory_by_day. rewrite Hs. simpl.
  unfold alt_line, mandatory_line, day_places.
  rewrite (split_no_separator _ _ Hp). simpl.
  split; [|by rewrite orb_true_r].
  destruct line; [done|]. simpl. unfold assign. by rewrite Ht.
Qed.

Lemma line_without_separator_witness :
  alt_addresses (lit "Gare du Nord") = {[ lit "Gare du Nord" := [] ]} /\
  mandatory_by_day (lit "Gare du Nord") = inr ∅.
Proof.
  apply (line_without_separator (lit "Gare du Nord")).
  - discriminate.
  - reflexivity.
  - apply (bool_decide_unpack _). exact I.
  - apply (bool_decide_unpack _). exact I.
Defined.

End AltAddressProperties.

Section PayloadProperties.

Import Script Outcome.

Lemma trimStart_nil (s : jsstring) :
  trimStart s = [] <-> forallb is_ws s = true.
Proof.
  induction s as [|c s IH]; simpl; [done|].
  destruct (is_ws c); simpl; [exact IH|]. split; discriminate.
Qed.

Lemma trim_nil (s : jsstring) : trim s = [] <-> forallb is_ws s = true.
Proof.
  rewrite <- trimStart_nil. unfold trim.
  destruct (trimStart_head s) as [->|(c & t & -> & H)]; [done|].
  rewrite (trimEnd_cons _ _ H). split; discriminate.
Qed.

(** X8: the request carries [null] for the home exactly when the home
    control holds nothing but white space; otherwise it carries the
    trimmed text, which is not empty. *)
Theorem payload_home (p : Page) (payload : Request.Payload) :
  build_payload p = inr payload ->
  Request.home (Request.config payload) =
    (if forallb is_ws (value p Field.home) then None
     else Some (trim (value p Field.home))) /\
  Request.home (Request.config payload) <> Some [].
Proof.
  unfold build_payload.
  destruct (Parser.mandatory_by_day _); [done|]. intros [= <-]. simpl.
  pose proof (trim_nil (value p Field.home)) as H.
  destruct (trim (value p Field.home)) as [|c t] eqn:E; simpl.
  - rewrite (proj1 H eq_refl). split; [done|discriminate].
  - split; [|congruence].
    destruct (forallb is_ws (value p Field.home)); [|done].
    discriminate (proj2 H eq_refl).
Qed.

Lemma payload_home_witness :
  exists payload,
    build_payload (Fixture.with_field Field.home [32; 9; 160] Fixture.blank)
      = inr payload /\
    Request.home (Request.config payload) = None.
Proof.
  set (p := Fixture.with_field Field.home [32; 9; 160] Fixture.blank).
  let r := eval vm_compute in (build_payload p) in
  match r with inr ?x => exists x end.
  assert (build_payload p = inr _) as E by (vm_compute; reflexivity).
  split; [exact E|].
  exact (proj1 (payload_home p _ E)).
Defined.

End PayloadProperties.

(** ** The view controller and the planning call, further *)

Section PlanFacts.

Import Plan Script Rule Outcome.

Lemma forEach_appendOption (infos : list RouteInfo) (p : Page) :
  forEach (fun info => appendOption (label info)) infos p =
    (inr tt,
     match infos with
     | [] => p
     | _ =>
         set_day_selectedIndex
           (match day_selectedIndex p with None => Some 0%nat | s => s end)
           (set_day_options (day_options p ++ List.map label infos) p)
     end).
Proof.
  revert p. induction infos as [|info rest IH]; intros p; [done|].
  simpl. unfold bind at 1, appendOption at 1, modify at 1. rewrite IH.
  destruct rest as [|info' rest]; [done|].
  unfold set_day_selectedIndex, set_day_options. simpl.
  rewrite <- app_assoc. simpl. by destruct (day_selectedIndex p).
Qed.

Lemma populateDays_run (resp : PlanResponse) (p : Page) :
  populateDays resp p =
    (inr tt,
     set_day_selectedIndex
       (match routes resp with [] => None | _ => Some 0%nat end)
       (set_day_options (List.map label (routes resp)) p)).
Proof.
  unfold populateDays, bind, modify. rewrite forEach_appendOption.
  by destruct (routes resp).
Qed.

(** [plan], by the outcome of the parse and of the call. *)
Lemma plan_run (v : Variant) (fetch : Request.Payload -> FetchOutcome)
    (p : Page) :
  plan v fetch p =
    match build_payload p with
    | inl e => (inl e, cleared p)
    | inr payload =>
        match fetch payload with
        | HttpSuccess (inr resp) =>
            try_catch (updateView v)
              (fun e => alert (lit "Planning failed: " ++ message e))
              (planned resp p)
        | NetworkFailure e | HttpSuccess (inl e) =>
            alert (lit "Planning failed: " ++ message e) (cleared p)
        | HttpFailure text =>
            alert (lit "Planning failed: " ++ text) (cleared p)
        end
    end.
Proof.
  unfold plan, bind, modify, try_catch, lift.
  change (build_payload (set_mapFrame_src [] (set_list_innerHTML [] p)))
    with (build_payload p).
  destruct (build_payload p) as [e|payload]; [done|].
  unfold ret at 1.
  destruct (fetch payload) as [e|text|[e|resp]]; try done.
  unfold ret at 1. rewrite populateDays_run.
  unfold planned, cleared.
  by destruct (routes resp).
Qed.

(** [updateView] writes nothing but the view. *)
Lemma updateView_same_but_view (v : Variant) (p : Page) :
  same_but_view p (snd (updateView v p)).
Proof.
  unfold same_but_view, same_session.
  destruct (lastPlan p) as [resp|] eqn:E.
  - rewrite (updateView_plan _ _ _ E). simpl.
    case_bool_decide; [by rewrite renderList_run|].
    rewrite showMap_run. simpl. rewrite E. by destruct (_ ≫= _).
  - rewrite (updateView_no_plan _ _ E). by destruct v.
Qed.

(** The index [updateView] passes to [showMap] once a plan has arrived. *)
Lemma planned_index (v : Variant) (resp : PlanResponse) (p : Page) :
  (match v with
   | Gated =>
       if some_day (routes resp) then day_value (planned resp p)
       else Some 0%nat
   | Ungated => day_value (planned resp p)
   end) ≫= (fun i => routes resp !! i) = head (routes resp).
Proof.
  assert (day_value (planned resp p) =
            match routes resp with [] => None | _ => Some 0%nat end) as ->
    by (unfold day_value, planned; simpl; by destruct (routes resp)).
  destruct (routes resp) as [|r rest]; simpl.
  - by destruct v.
  - destruct v; [|done]. by destruct (_ || _).
Qed.

(** [updateView] on the page a plan has just reached. *)
Lemma updateView_planned (v : Variant) (resp : PlanResponse) (p : Page) :
  updateView v (planned resp p) =
    let q := toggled v (some_day (routes resp)) (planned resp p) in
    if bool_decide (value p Field.view = LIST)
    then (inr tt, set_list_innerHTML (concat (List.map block (routes resp))) q)
    else match head (routes resp) with
         | Some info => (inr tt, set_mapFrame_src (map_path info) q)
         | None => (inl UNDEFINED_MAP_PATH, q)
         end.
Proof.
  rewrite (updateView_plan v (planned resp p) resp eq_refl).
  change (value (planned resp p) Field.view) with (value p Field.view).
  cbv zeta. case_bool_decide; [apply renderList_run|].
  rewrite showMap_run.
  change (lastPlan (toggled v _ (planned resp p))) with (Some resp).
  cbv iota beta. by rewrite planned_index.
Qed.

End PlanFacts.

Section PlanProperties.

Import Plan Script Rule Outcome.

(** The page [plan] leaves when the call succeeds, apart from the view:
    the plan is held, the selector is filled, the session is untouched
    and at most one alert was shown. *)
Lemma plan_success_state (v : Variant)
    (fetch : Request.Payload -> FetchOutcome) (p : Page)
    (payload : Request.Payload) (resp : PlanResponse) :
  build_payload p = inr payload ->
  fetch payload = HttpSuccess (inr resp) ->
  let q := snd (plan v fetch p) in
  fst (plan v fetch p) = inr tt /\
  lastPlan q = Some resp /\
  day_options q = List.map label (routes resp) /\
  day_selectedIndex q =
    match routes resp with [] => None | _ => Some 0%nat end /\
  same_session p q /\
  (alerts q = alerts p \/
   alerts q = alerts p ++ [lit "Planning failed: " ++ message UNDEFINED_MAP_PATH]).
Proof.
  intros Hb Hf. rewrite plan_run, Hb, Hf. unfold try_catch.
  rewrite updateView_planned. cbv zeta.
  case_bool_decide; [repeat split; by left|].
  destruct (head (routes resp)); repeat split; (by left) || (by right).
Qed.

(** X9: [plan] raises only when the mandatory parse does: then it raises
    that [TypeError] with the list region and the map frame emptied, and
    nothing else changed; in every other case it returns normally,
    whatever the endpoint answers. *)
Theorem plan_raises_only_on_parse (v : Variant)
    (fetch : Request.Payload -> FetchOutcome) (p : Page) :
  if Reference.own_days (value p Field.mandatory)
  then fst (plan v fetch p) = inr tt
  else plan v fetch p = (inl NO_PUSH, cleared p).
Proof.
  rewrite plan_run. unfold build_payload, Parser.mandatory_by_day.
  destruct (Reference.own_days (value p Field.mandatory)) eqn:E.
  - rewrite (mandatory_lines_entries _ _ E).
    match goal with |- context [fetch ?x] => destruct (fetch x) as [e|t|[e|r]] end;
      try reflexivity.
    unfold try_catch. rewrite updateView_planned. cbv zeta.
    case_bool_decide; [done|]. by destruct (head (routes r)).
  - by rewrite (mandatory_lines_raise _ _ own_keys_empty E).
Qed.

(** X10: a call that fails in any of its three ways (no response, a
    non-success status, a success body that is not JSON) ends in one
    alert, ["Planning failed: "] followed by the message of the failure,
    on the page with the list region and the map frame emptied; the plan
    held before is kept. *)
Theorem plan_failure_reported (v : Variant)
    (fetch : Request.Payload -> FetchOutcome) (p : Page)
    (payload : Request.Payload) (e : JsError) :
  build_payload p = inr payload ->
  failure_of (fetch payload) = Some e ->
  plan v fetch p =
    (inr tt,
     set_alerts (alerts p ++ [lit "Planning failed: " ++ message e])
                (cleared p)).
Proof.
  intros Hb Hf. rewrite plan_run, Hb.
  destruct (fetch payload) as [e'|t|[e'|r]]; simpl in Hf;
    try injection Hf as <-; try done.
Qed.

Lemma plan_failure_reported_witness :
  let fetch := fun _ => NetworkFailure (TypeError (lit "Failed to fetch")) in
  plan Gated fetch Fixture.blank =
    (inr tt,
     set_alerts [lit "Planning failed: Failed to fetch"]
                (cleared Fixture.blank)).
Proof.
  intros fetch.
  assert (exists payload, build_payload Fixture.blank = inr payload)
    as [payload Hb] by (vm_compute; eauto).
  apply (plan_failure_reported Gated fetch Fixture.blank payload
           (TypeError (lit "Failed to fetch")) Hb eq_refl).
Defined.

(** X11: whatever the form holds and whatever the endpoint answers,
    [plan] leaves the controls, the storage, the URL, the theme and the
    clipboard as they were, and shows at most one alert, which starts
    with ["Planning failed: "]. *)
Theorem plan_keeps_session (v : Variant)
    (fetch : Request.Payload -> FetchOutcome) (p : Page) :
  let q := snd (plan v fetch p) in
  same_session p q /\
  (alerts q = alerts p \/
   exists text, alerts q = alerts p ++ [lit "Planning failed: " ++ text]).
Proof.
  destruct (build_payload p) as [e|payload] eqn:Hb.
  - rewrite plan_run, Hb. split; [done|by left].
  - destruct (fetch payload) as [e|t|[e|resp]] eqn:Hf.
    1-3: rewrite plan_run, Hb, Hf; split; [done|right; eauto].
    destruct (plan_success_state v fetch p payload resp Hb Hf)
      as (_ & _ & _ & _ & Hs & [Ha|Ha]).
    + split; [done|by left].
    + split; [done|right; eauto].
Qed.

(** X12: after a successful call whose plan has at least one route,
    [plan] has returned normally without alert, holds the plan, offers
    one day option per route with the first selected, and shows the view
    chosen: in list view the blocks of all routes, in any other view the
    map of the first route, in both variants. *)
Theorem plan_success_renders (v : Variant)
    (fetch : Request.Payload -> FetchOutcome) (p : Page)
    (payload : Request.Payload) (resp : PlanResponse)
    (first : RouteInfo) (rest : list RouteInfo) :
  build_payload p = inr payload ->
  fetch payload = HttpSuccess (inr resp) ->
  routes resp = first :: rest ->
  let q := snd (plan v fetch p) in
  fst (plan v fetch p) = inr tt /\
  alerts q = alerts p /\
  lastPlan q = Some resp /\
  day_options q = List.map label (routes resp) /\
  day_value q = Some 0%nat /\
  (if bool_decide (value p Field.view = LIST)
   then list_innerHTML q = concat (List.map block (routes resp)) /\
        mapFrame_src q = []
   else list_innerHTML q = [] /\ mapFrame_src q = map_path first).
Proof.
  intros Hb Hf Hr. rewrite plan_run, Hb, Hf. unfold try_catch.
  rewrite updateView_planned. cbv zeta. rewrite Hr.
  case_bool_decide; simpl; unfold day_value; simpl; rewrite Hr; done.
Qed.

Lemma plan_success_renders_witness :
  let r1 := Fixture.route None [lit "Louvre"] 1200 15 (lit "r0.html") in
  let resp := {| routes := [r1] |} in
  let p := Fixture.with_field Field.view (lit "map")
             (Fixture.with_field Field.places (lit "Louvre") Fixture.blank) in
  let q := snd (plan Gated (fun _ => HttpSuccess (inr resp)) p) in
  lastPlan q = Some resp /\ mapFrame_src q = lit "r0.html".
Proof.
  intros r1 resp p q.
  assert (exists payload, build_payload p = inr payload) as [payload Hb]
    by (vm_compute; eauto).
  destruct (plan_success_renders Gated (fun _ => HttpSuccess (inr resp)) p
              payload resp r1 [] Hb eq_refl eq_refl)
    as (_ & _ & H1 & _ & _ & H2).
  split; [exact H1|]. exact (proj2 H2).
Defined.

(** X13: a successful call whose plan has no route still replaces the
    plan held.  In list view nothing more happens; in any other view the
    map cannot be shown, and the user gets the alert of a failed
    planning although the empty plan was stored. *)
Theorem plan_empty_routes (v : Variant)
    (fetch : Request.Payload -> FetchOutcome) (p : Page)
    (payload : Request.Payload) (resp : PlanResponse) :
  build_payload p = inr payload ->
  fetch payload = HttpSuccess (inr resp) ->
  routes resp = [] ->
  let q := snd (plan v fetch p) in
  fst (plan v fetch p) = inr tt /\
  lastPlan q = Some resp /\ day_options q = [] /\
  list_innerHTML q = [] /\ mapFrame_src q = [] /\
  alerts q =
    (if bool_decide (value p Field.view = LIST) then alerts p
     else alerts p ++ [lit "Planning failed: " ++ message UNDEFINED_MAP_PATH]).
Proof.
  intros Hb Hf Hr. rewrite plan_run, Hb, Hf. unfold try_catch.
  rewrite updateView_planned. cbv zeta. rewrite Hr.
  case_bool_decide; simpl; rewrite ?Hr; done.
Qed.

Lemma plan_empty_routes_witness :
  let resp := {| routes := [] |} in
  let p := Fixture.with_field Field.view (lit "map") Fixture.blank in
  let q := snd (plan Ungated (fun _ => HttpSuccess (inr resp)) p) in
  lastPlan q = Some resp /\
  alerts q =
    [lit "Planning failed: Cannot read properties of undefined (reading 'map_path')"].
Proof.
  intros resp p q.
  assert (exists payload, build_payload p = inr payload) as [payload Hb]
    by (vm_compute; eauto).
  destruct (plan_empty_routes Ungated (fun _ => HttpSuccess (inr resp)) p
              payload resp Hb eq_refl eq_refl)
    as (_ & H1 & _ & _ & _ & H2).
  split; [exact H1|exact H2].
Defined.

End PlanProperties.

Section SelectorProperties.

Import Plan Script Rule Outcome Session.

(** X14: [populateDays] never raises and replaces whatever options the
    selector had: afterwards option [i] exists exactly when route [i]
    does and carries its label, and the selector shows option 0 when
    there is a route and nothing otherwise. *)
Theorem populateDays_options (resp : PlanResponse) (p : Page) :
  let q := snd (populateDays resp p) in
  fst (populateDays resp p) = inr tt /\
  length (day_options q) = length (routes resp) /\
  (forall i, day_options q !! i = label <$> routes resp !! i) /\
  (day_value q = if bool_decide (routes resp = []) then None else Some 0%nat).
Proof.
  rewrite populateDays_run. simpl. split; [done|].
  split; [by rewrite length_map|].
  split; [intros i; by rewrite list_lookup_fmap|].
  unfold day_value. simpl. by destruct (routes resp).
Qed.

(** X15: [updateView] writes nothing but the view (the three visibility
    flags, the list markup, the source of the map frame), and running it
    again changes nothing more: same result, same page. *)
Theorem updateView_idempotent (v : Variant) (p : Page) :
  same_but_view p (snd (updateView v p)) /\
  updateView v (snd (updateView v p)) = updateView v p.
Proof.
  split; [apply updateView_same_but_view|].
  destruct (lastPlan p) as [resp|] eqn:E.
  - rewrite (updateView_plan v p resp E). cbv zeta.
    destruct (bool_decide (value p Field.view = LIST)) eqn:Hv.
    + rewrite renderList_run. simpl.
      erewrite updateView_plan by (simpl; exact E). simpl.
      rewrite Hv, renderList_run. reflexivity.
    + rewrite showMap_run. simpl. rewrite E.
      match goal with |- context [?i ≫= ?f] => destruct (i ≫= f) eqn:Hi end;
        simpl; erewrite updateView_plan by (simpl; exact E); simpl;
        rewrite Hv, showMap_run; simpl; rewrite E.
      all: destruct v; unfold day_value in Hi |- *; simpl in Hi |- *.
      all: rewrite Hi; reflexivity.
  - rewrite (updateView_no_plan v p E). destruct v; simpl.
    + by rewrite (updateView_no_plan Gated p E).
    + by rewrite updateView_no_plan by (simpl; exact E).
Qed.

(** X16: after a successful call, every option of the day selector
    designates a route of the plan held: picking option [i] shows the map
    of route [i] without error, in both variants. *)
Theorem day_options_index_routes (v : Variant)
    (fetch : Request.Payload -> FetchOutcome) (p : Page)
    (payload : Request.Payload) (resp : PlanResponse) (i : nat) :
  build_payload p = inr payload ->
  fetch payload = HttpSuccess (inr resp) ->
  (i < length (day_options (snd (plan v fetch p))))%nat ->
  exists info,
    routes resp !! i = Some info /\
    pick_day i (snd (plan v fetch p)) =
      (inr tt,
       set_mapFrame_src (map_path info)
         (set_day_value i (snd (plan v fetch p)))).
Proof.
  intros Hb Hf Hi.
  destruct (plan_success_state v fetch p payload resp Hb Hf)
    as (_ & Hl & Ho & _).
  set (q := snd (plan v fetch p)) in *.
  rewrite Ho, length_map in Hi.
  destruct (lookup_lt_is_Some_2 (routes resp) i Hi) as [info Hinfo].
  exists info. split; [done|].
  unfold pick_day, day_change, bind, gets. rewrite showMap_run.
  assert (day_value (set_day_value i q) = Some i) as ->.
  { unfold day_value, set_day_value. simpl.
    rewrite Ho, length_map.
    destruct (Nat.ltb_spec i (length (routes resp))); [|lia].
    simpl. by destruct (Nat.ltb_spec i (length (routes resp))); [|lia]. }
  simpl. by rewrite Hl, Hinfo.
Qed.

Lemma day_options_index_routes_witness :
  let r0 := Fixture.route (Some 1%Z) [lit "Louvre"] 1200 15 (lit "d1.html") in
  let r1 := Fixture.route (Some 2%Z) [lit "Orsay"] 900 12 (lit "d2.html") in
  let resp := {| routes := [r0; r1] |} in
  let q := snd (plan Gated (fun _ => HttpSuccess (inr resp)) Fixture.blank) in
  exists info,
    routes resp !! 1%nat = Some info /\
    pick_day 1 q =
      (inr tt, set_mapFrame_src (map_path info) (set_day_value 1 q)).
Proof.
  intros r0 r1 resp q.
  assert (exists payload, build_payload Fixture.blank = inr payload)
    as [payload Hb] by (vm_compute; eauto).
  apply (day_options_index_routes Gated (fun _ => HttpSuccess (inr resp))
           Fixture.blank payload resp 1 Hb eq_refl).
  vm_compute. lia.
Defined.

End SelectorProperties.

(** ** Persistence, further *)

Section SessionFacts.

Import Script Rule Outcome Session.

Lemma theme_is_no_field (id : Field.id) : Field.name id <> THEME.
Proof. destruct id; intros E; vm_compute in E; discriminate E. Qed.

Lemma resolve_all_theme (params : SearchParams.t) (ids : list Field.id) :
  forall p,
  localStorage (resolve_all params ids p) !! THEME = localStorage p !! THEME.
Proof.
  unfold resolve_all.
  induction ids as [|id rest IH]; intros p; simpl; [done|].
  rewrite IH. unfold resolve.
  destruct (SearchParams.get params (Field.name id)); simpl.
  - apply lookup_insert_ne, theme_is_no_field.
  - by destruct (localStorage p !! Field.name id).
Qed.

Lemma resolve_all_frame (params : SearchParams.t) (ids : list Field.id) :
  forall p,
  lastPlan (resolve_all params ids p) = lastPlan p /\
  location (resolve_all params ids p) = location p.
Proof.
  unfold resolve_all.
  induction ids as [|id rest IH]; intros p; simpl; [done|].
  destruct (IH (resolve params id p)) as [-> ->]. apply resolve_frame.
Qed.

(** [restoreForm] as a whole: the six controls are resolved, the theme is
    applied, the view is updated, and the query is stripped when a
    tracked parameter was present, unless [updateView] raised. *)
Lemma restoreForm_full (p : Page) :
  restoreForm p =
    let params := search (location p) in
    let r := resolve_all params Field.all p in
    let s := set_body_dark
               (bool_decide (localStorage r !! THEME = Some DARK)) r in
    match updateView Gated s with
    | (inl e, q) => (inl e, q)
    | (inr _, q) =>
        (inr tt,
         if had_params params
         then set_location {| pathname := pathname (location q);
                              search := [];
                              hash := hash (location q) |} q
         else q)
    end.
Proof.
  unfold restoreForm.
  unfold bind at 1. unfold gets at 1.
  set (params := search (location p)).
  repeat (unfold bind at 1; rewrite setValue_run).
  unfold bind at 1. unfold gets at 1.
  unfold bind at 1. unfold modify at 1.
  unfold bind at 1. cbv zeta.
  change (resolve_all params Field.all p)
    with (resolve params Field.view
            (resolve params Field.mode
               (resolve params Field.altAddresses
                  (resolve params Field.mandatory
                     (resolve params Field.places
                        (resolve params Field.home p)))))).
  match goal with
  | |- context [updateView Gated ?s] =>
      destruct (updateView Gated s) as [[e|[]] q]
  end; [done|].
  unfold had_params, Field.all. cbn [existsb].
  destruct (SearchParams.get params (Field.name Field.home)),
           (SearchParams.get params (Field.name Field.places)),
           (SearchParams.get params (Field.name Field.mandatory)),
           (SearchParams.get params (Field.name Field.altAddresses)),
           (SearchParams.get params (Field.name Field.mode)),
           (SearchParams.get params (Field.name Field.view));
    reflexivity.
Qed.

Lemma restoreForm_theme (p : Page) :
  body_dark (snd (restoreForm p)) =
    bool_decide (localStorage p !! THEME = Some DARK).
Proof.
  rewrite restoreForm_full. cbv zeta.
  match goal with
  | |- context [updateView Gated ?s] =>
      pose proof (updateView_same_but_view Gated s)
        as ((_ & _ & _ & Hd & _) & _);
      destruct (updateView Gated s) as [[e|[]] q]
  end; cbn [snd body_dark set_body_dark] in Hd |- *.
  - by rewrite Hd, resolve_all_theme.
  - destruct (had_params _); cbn [body_dark set_location];
      by rewrite Hd, resolve_all_theme.
Qed.

Lemma dispatch_store (id : Field.id) (p : Page) :
  snd (store_field id p) =
    set_localStorage (<[Field.name id := value p id]> (localStorage p)) p.
Proof. reflexivity. Qed.

(** After the listeners of a control have run in the first script, the
    storage holds the value of the control under its name. *)
Lemma input_stored (id : Field.id) (x : jsstring) (p : Page) :
  localStorage (input Gated id x p) !! Field.name id = Some x.
Proof.
  unfold input, dispatch.
  assert (forall q, value q id = x ->
            localStorage (snd (store_field id q)) !! Field.name id = Some x)
    as Hstore.
  { intros q Hq. rewrite dispatch_store.
    cbn [localStorage set_localStorage].
    by rewrite lookup_insert_eq, Hq. }
  assert (value (snd (set_field id x p)) id = x) as Hset
    by (unfold set_field, modify; cbn [snd value set_value];
        apply fn_lookup_insert).
  destruct id; cbn [listeners fold_left]; try (by apply Hstore).
  apply Hstore.
  match goal with
  | |- context [updateView Gated ?s] =>
      destruct (updateView_frame Gated s) as [-> _]
  end.
  exact Hset.
Qed.

End SessionFacts.

Section SessionProperties.

Import Script Rule Outcome Session.

(** X17: a click on the heading flips the theme and stores the new one;
    a second click restores the first; and a reload of the first script
    shows the theme last chosen, whatever the URL. *)
Theorem theme_survives_reload (p fresh : Page) :
  let q := snd (toggle_theme p) in
  body_dark q = negb (body_dark p) /\
  localStorage q !! THEME = Some (if body_dark q then DARK else LIGHT) /\
  body_dark (snd (toggle_theme q)) = body_dark p /\
  body_dark (reload Gated fresh q) = body_dark q.
Proof.
  intros q. subst q.
  assert (snd (toggle_theme p) =
          set_localStorage
            (<[THEME := if negb (body_dark p) then DARK else LIGHT]>
               (localStorage p))
            (set_body_dark (negb (body_dark p)) p)) as -> by reflexivity.
  cbn [body_dark set_localStorage set_body_dark localStorage].
  split; [done|]. split; [apply lookup_insert_eq|].
  split; [apply negb_involutive|].
  unfold reload, boot. rewrite restoreForm_theme.
  cbn [localStorage set_lastPlan set_localStorage].
  rewrite lookup_insert_eq.
  destruct (body_dark p); vm_compute; reflexivity.
Qed.

(** X18: in the first script a value given to a tracked control is
    written to storage at once, also for the view selector when
    [updateView] raises; so a reload at a URL without that parameter
    shows the value again.  The second script stores nothing. *)
Theorem edit_survives_reload (id : Field.id) (x : jsstring)
    (p fresh : Page) :
  SearchParams.get (search (location fresh)) (Field.name id) = None ->
  localStorage (input Gated id x p) !! Field.name id = Some x /\
  value (reload Gated fresh (input Gated id x p)) id = x /\
  localStorage (input Ungated id x p) = localStorage p.
Proof.
  intros Hget. split; [apply input_stored|]. split.
  - unfold reload, boot.
    destruct (restoreForm_values
                (set_lastPlan None
                   (set_localStorage (localStorage (input Gated id x p)) fresh))
                id) as [-> _].
    unfold resolved. cbn [location set_lastPlan set_localStorage localStorage].
    by rewrite Hget, input_stored.
  - unfold input, dispatch. destruct id; cbn [listeners fold_left]; try done.
    match goal with
    | |- context [updateView Ungated ?s] =>
        destruct (updateView_frame Ungated s) as [_ ->]
    end.
    reflexivity.
Qed.

Lemma edit_survives_reload_witness :
  let q := input Gated Field.view (lit "map") Fixture.blank in
  localStorage q !! lit "view" = Some (lit "map") /\
  value (reload Gated Fixture.blank q) Field.view = lit "map" /\
  localStorage (input Ungated Field.view (lit "map") Fixture.blank) = ∅.
Proof.
  intros q.
  apply (edit_survives_reload Field.view (lit "map") Fixture.blank
           Fixture.blank).
  reflexivity.
Defined.

(** X19: loading the first script always ends in the uncaught
    [TypeError] of [updateView]: the controls and the theme have been
    restored by then, but the URL keeps its query, tracked parameters
    included.  The second script loads without restoring anything. *)
Theorem boot_outcome (fresh : Page) :
  fst (boot Gated fresh) = inl NULL_ROUTES /\
  location (snd (boot Gated fresh)) = location fresh /\
  body_dark (snd (boot Gated fresh)) =
    bool_decide (localStorage fresh !! THEME = Some DARK) /\
  (forall id,
     value (snd (boot Gated fresh)) id =
       resolved (search (location fresh)) (localStorage fresh)
                (value fresh) id) /\
  boot Ungated fresh = (inr tt, set_lastPlan None fresh).
Proof.
  unfold boot.
  destruct (restoreForm_on_load_raises (set_lastPlan None fresh) eq_refl)
    as [H1 H2].
  split; [exact H1|]. split; [exact H2|].
  split; [by rewrite restoreForm_theme|]. split; [|done].
  intros id. by destruct (restoreForm_values (set_lastPlan None fresh) id).
Qed.

End SessionProperties.

Section ShareProperties.

Import Script Rule Outcome.

Lemma occurrences_remove_eq (params : SearchParams.t) (n : jsstring) :
  occurrences (SearchParams.remove params n) n = 0%nat.
Proof.
  unfold occurrences, SearchParams.remove.
  induction params as [|[m w] rest IH]; simpl; [done|].
  case_bool_decide as E; simpl; [done|].
  by rewrite bool_decide_eq_false_2.
Qed.

Lemma occurrences_remove_ne (params : SearchParams.t) (n other : jsstring) :
  other <> n ->
  occurrences (SearchParams.remove params n) other = occurrences params other.
Proof.
  intros Hne. unfold occurrences, SearchParams.remove.
  induction params as [|[m w] rest IH]; simpl; [done|].
  case_bool_decide as E; simpl in *.
  - subst m. by rewrite bool_decide_eq_false_2 by done.
  - case_bool_decide; simpl; by rewrite IH.
Qed.

Lemma occurrences_set_pair_eq (params : SearchParams.t) (n v : jsstring) :
  occurrences (SearchParams.set_pair params n v) n = 1%nat.
Proof.
  induction params as [|[m w] rest IH]; simpl.
  - unfold occurrences. simpl. by rewrite bool_decide_eq_true_2.
  - case_bool_decide as E.
    + subst m. unfold occurrences. simpl.
      rewrite bool_decide_eq_true_2 by done. simpl. f_equal.
      apply occurrences_remove_eq.
    + unfold occurrences in *. simpl.
      by rewrite bool_decide_eq_false_2.
Qed.

Lemma occurrences_set_pair_ne (params : SearchParams.t)
    (n other v : jsstring) :
  other <> n ->
  occurrences (SearchParams.set_pair params n v) other =
    occurrences params other.
Proof.
  intros Hne. induction params as [|[m w] rest IH]; simpl.
  - unfold occurrences. simpl. by rewrite bool_decide_eq_false_2.
  - case_bool_decide as E.
    + subst m. unfold occurrences. simpl.
      rewrite bool_decide_eq_false_2 by done.
      by apply occurrences_remove_ne.
    + unfold occurrences in *. simpl.
      case_bool_decide; simpl; by rewrite IH.
Qed.

(** The query of the shared link, as six [set] calls on tracked names. *)
Lemma share_url_search (p : Page) :
  search (share_url p) =
    SearchParams.set_pair
      (SearchParams.set_pair
         (SearchParams.set_pair
            (SearchParams.set_pair
               (SearchParams.set_pair
                  (SearchParams.set_pair (search (location p))
                     (Field.name Field.home)
                     (SearchParams.toUSV (shared p Field.home)))
                  (Field.name Field.places)
                  (SearchParams.toUSV (shared p Field.places)))
               (Field.name Field.mandatory)
               (SearchParams.toUSV (shared p Field.mandatory)))
            (Field.name Field.altAddresses)
            (SearchParams.toUSV (shared p Field.altAddresses)))
         (Field.name Field.mode)
         (SearchParams.toUSV (shared p Field.mode)))
      (Field.name Field.view)
      (SearchParams.toUSV (shared p Field.view)).
Proof. reflexivity. Qed.

(** X20: [share] does not navigate and changes nothing on the page but
    the clipboard; the link has the path and the fragment of the current
    URL, and every query parameter that is not one of the six tracked
    names is carried over, with its first value and as many times. *)
Theorem share_keeps_rest (p : Page) :
  share p = (inr tt, set_clipboard (Some (share_url p)) p) /\
  pathname (share_url p) = pathname (location p) /\
  hash (share_url p) = hash (location p) /\
  forall n, (forall id, n <> Field.name id) ->
    SearchParams.get (search (share_url p)) n =
      SearchParams.get (search (location p)) n /\
    occurrences (search (share_url p)) n =
      occurrences (search (location p)) n.
Proof.
  split; [done|]. split; [done|]. split; [done|].
  intros n Hn. rewrite share_url_search.
  rewrite !get_set_pair_ne, !occurrences_set_pair_ne by apply Hn.
  done.
Qed.

Lemma share_keeps_rest_witness :
  let p := set_location
             {| pathname := lit "/"; hash := lit "#top";
                search := [(lit "lang", lit "fr"); (lit "home", lit "old")] |}
             (Fixture.with_field Field.home (lit "new") Fixture.blank) in
  SearchParams.get (search (share_url p)) (lit "lang") = Some (lit "fr") /\
  occurrences (search (share_url p)) (lit "lang") = 1%nat.
Proof.
  intros p.
  apply (proj2 (proj2 (proj2 (share_keeps_rest p))) (lit "lang")).
  intros id E. destruct id; vm_compute in E; discriminate E.
Defined.

Ltac other_name :=
  let E := fresh in intros E; vm_compute in E; discriminate E.

(** X21: the shared link carries each of the six tracked names exactly
    once, even when the current URL carried one several times. *)
Theorem share_names_once (p : Page) (id : Field.id) :
  occurrences (search (share_url p)) (Field.name id) = 1%nat.
Proof.
  rewrite share_url_search.
  destruct id;
    repeat (rewrite occurrences_set_pair_ne by other_name);
    apply occurrences_set_pair_eq.
Qed.

End ShareProperties.
